(** * pico-flashloader demo application ([app.c]): Intel HEX receiver

    A shallow embedding of the record parser, the image assembler and the
    flash stager of [app.c], and the properties of the three-stage pipeline.

    Conventions.  C integers are [Z] with the wrap-around of their type
    written out ([u8], [u16], [u32]).  Arrays are lists read with a total
    lookup; a store into an array is stdpp's list insert.  A [char] is an
    [ascii] and a C string is a [string] whose terminating NUL is the end of
    the Rocq string (a NUL character inside it terminates it early, as in C). *)

From Stdlib Require Import ZArith Lia Ascii String List.
From stdpp Require Import base list strings.

Local Open Scope Z_scope.

(** ** Machine integers *)

Definition u8 (x : Z) : Z := x mod 256.
Definition u16 (x : Z) : Z := x mod 65536.
Definition u32 (x : Z) : Z := x mod 2 ^ 32.

(** A byte array holds values of [uint8_t]. *)
Definition is_byte (b : Z) : Prop := 0 <= b < 256.
Definition bytes_ok (l : list Z) : Prop := Forall is_byte l.

(** Array read [a[i]]; the arrays of the program are always read inside
    their bounds, the default only makes the lookup total. *)
Definition rd (a : list Z) (i : Z) : Z := default 0 (a !! Z.to_nat i).

(** Array store [a[i] = v]. *)
Definition wr (a : list Z) (i : Z) (v : Z) : list Z := <[Z.to_nat i := v]> a.

(** ** Checksum engine: [crc32] *)

(** One round of the inner [for] loop:
    [if(crc & (1L << 31)) crc = (crc << 1) ^ 0x04C11DB7; else crc = (crc << 1);] *)
Definition crc32_round (crc : Z) : Z :=
  if negb (Z.land crc (Z.shiftl 1 31) =? 0)
  then Z.lxor (u32 (Z.shiftl crc 1)) 0x04C11DB7
  else u32 (Z.shiftl crc 1).

(** [for(int bit = 0; bit < 8; bit++)], counted down by [n = 8 - bit]. *)
Fixpoint crc32_bits (n : nat) (crc : Z) : Z :=
  match n with
  | O => crc
  | S n' => crc32_bits n' (crc32_round crc)
  end.

(** The body of the [while]: the next byte, shifted left by 24, is XORed
    into [crc]; then the eight rounds. *)
Definition crc32_byte (crc : Z) (b : Z) : Z :=
  crc32_bits 8 (Z.lxor crc (u32 (Z.shiftl b 24))).

(** [while(len--)]: [None] is a read past the end of the array [data]. *)
Fixpoint crc32_loop (data : list Z) (len : nat) (crc : Z) {struct len}
  : option Z :=
  match len with
  | O => Some crc
  | S len' =>
      match data with
      | [] => None
      | b :: data' => crc32_loop data' len' (crc32_byte crc b)
      end
  end.

Definition crc32 (data : list Z) (len : Z) (crc : Z) : option Z :=
  crc32_loop data (Z.to_nat len) crc.

(** The checksum as the specification words it, on arithmetic mod 2^32:
    each byte is XORed into the high-order 8 bits of the running value, then
    8 rounds of: if the top bit is set, shift left and XOR with 0x04C11DB7,
    else shift left.  No reflection, no final XOR. *)
Definition crc32_spec_round (crc : Z) : Z :=
  if 2 ^ 31 <=? crc
  then Z.lxor ((2 * crc) mod 2 ^ 32) 0x04C11DB7
  else (2 * crc) mod 2 ^ 32.

Definition crc32_spec_byte (crc : Z) (b : Z) : Z :=
  Nat.iter 8 crc32_spec_round (Z.lxor crc (b * 2 ^ 24)).

Definition crc32_spec (bytes : list Z) (seed : Z) : Z :=
  fold_left crc32_spec_byte bytes seed.

(** The ASCII codes of a C string literal, as a byte array. *)
Definition bytes_of_string (s : string) : list Z :=
  map (fun c => Z.of_N (N_of_ascii c)) (list_ascii_of_string s).


(** ** Record parser *)

(** Intel HEX record ([tRecord]); [rec_data] is the array [data[256]]. *)
Record tRecord := mkRecord {
  rec_count : Z;
  rec_addr : Z;
  rec_type : Z;
  rec_data : list Z
}.

(** Intel HEX record types. *)
Definition TYPE_DATA : Z := 0x00.
Definition TYPE_EOF : Z := 0x01.
Definition TYPE_EXTSEG : Z := 0x02.
Definition TYPE_STARTSEG : Z := 0x03.
Definition TYPE_EXTLIN : Z := 0x04.
Definition TYPE_STARTLIN : Z := 0x05.

(** The code of a [char] (plain [char] is unsigned on the target; for the
    comparisons below a signed [char] gives the same answers, since a
    negative code stays negative under [|= 32]). *)
Definition code (c : ascii) : Z := Z.of_N (N_of_ascii c).

(** The character a [const char*] points at; the end of the string is the
    terminating NUL. *)
Definition peek (str : string) : ascii :=
  match str with
  | EmptyString => zero
  | String c _ => c
  end.

(** The pointer advanced by one character. *)
Definition next (str : string) : string :=
  match str with
  | EmptyString => EmptyString
  | String _ str' => str'
  end.

(** [hex2nibble(c, value)]: the result is the return value and the new
    contents of [*value]. *)
Definition hex2nibble (c : ascii) (value : Z) : bool * Z :=
  let c := code c in
  if (code "0" <=? c) && (c <=? code "9") then
    let value := u8 (Z.shiftl value 4) in
    let value := u8 (Z.lor value (u8 (c - code "0"))) in
    (true, value)
  else
    let c := Z.lor c 32 in
    if (code "a" <=? c) && (c <=? code "z") then
      let value := u8 (Z.shiftl value 4) in
      let value := u8 (Z.lor value (u8 (c - code "a") + 10)) in
      (true, value)
    else (false, value).

(** [parseHex(str, value)]: [&&] calls [hex2nibble] on the second character
    only when the first one was converted. *)
Definition parseHex (str : string) : bool * Z :=
  let value := 0 in
  let '(success, value) := hex2nibble (peek str) value in
  if success then hex2nibble (peek (next str)) value
  else (false, value).

(** [while( *line && ( *line != ':')) line++;] *)
Fixpoint skip_to_colon (line : string) : string :=
  match line with
  | EmptyString => line
  | String c line' =>
      if negb (code c =? 0) && negb (code c =? code ":")
      then skip_to_colon line'
      else line
  end.

(** [sizeof(data)] of the local [uint8_t data[256 + 5]]. *)
Definition sizeof_data : Z := 256 + 5.

(** [while(parseHex(line, &value) && (offset < sizeof(data)))] with its body
    [data[offset++] = value; checksum += value; line += 2;].  The result is
    [(offset, checksum, data)] when the loop exits. *)
Fixpoint decode_loop (line : string) (offset checksum : Z) (data : list Z)
  {struct line} : Z * Z * list Z :=
  let '(success, value) := parseHex line in
  if success && (offset <? sizeof_data) then
    match line with
    | String _ (String _ line') =>
        decode_loop line' (offset + 1) (u8 (checksum + value)) (wr data offset value)
    | _ => (offset, checksum, data)
    end
  else (offset, checksum, data).

(** [memcpy(&dst[d], &src[s], n)]. *)
Definition memcpy (dst : list Z) (d : Z) (src : list Z) (s n : Z) : list Z :=
  list_inserts (Z.to_nat d) (take (Z.to_nat n) (drop (Z.to_nat s) src)) dst.

(** The assignments [processRecord] makes to [*record] when it accepts:
    [record->count = data[0]; record->addr = data[2] | (data[1] << 8);
    record->type = data[3]; memcpy(record->data, &data[4], data[0]);] *)
Definition record_of (data : list Z) (record : tRecord) : tRecord :=
  {| rec_count := rd data 0;
     rec_addr := u16 (Z.lor (rd data 2) (Z.shiftl (rd data 1) 8));
     rec_type := rd data 3;
     rec_data := memcpy (rec_data record) 0 data 4 (rd data 0) |}.

(** [processRecord(line, record)].  The local array [data] is not
    initialised by the function: [data] is what the stack holds on entry.
    [record] is what the caller's [tRecord] holds on entry.  The result is
    the return value and the contents of [*record] on return. *)
Definition processRecord (line : string) (data : list Z) (record : tRecord)
  : bool * tRecord :=
  let line := skip_to_colon line in
  let '(offset, checksum, data) :=
    if code (peek line) =? code ":"
    then decode_loop (next line) 0 0 data
    else (0, 0, data) in
  if (0 <? offset) && (checksum =? 0)
  then (true, record_of data record)
  else (false, record).

(** The nibble [hex2nibble] stores for a character: every letter is taken,
    not only 'a'-'f'. *)
Definition nibble_of (c : ascii) : option Z :=
  let n := code c in
  if (48 <=? n) && (n <=? 57) then Some (n - 48)
  else if (65 <=? n) && (n <=? 90) then Some (n - 65 + 10)
  else if (97 <=? n) && (n <=? 122) then Some (n - 97 + 10)
  else None.

(** The bytes the decode loop stores, in order, when [room] elements of
    [data] are left: one byte for each pair [parseHex] converts. *)
Fixpoint decoded (line : string) (room : nat) {struct room} : list Z :=
  match room with
  | O => []
  | S room' =>
      let '(success, value) := parseHex line in
      if success then
        match line with
        | String _ (String _ line') => value :: decoded line' room'
        | _ => []
        end
      else []
  end.

(** The bytes [processRecord] decodes from a line: those after the first
    [':'], none when the line has no [':']. *)
Definition record_bytes (line : string) : list Z :=
  let line := skip_to_colon line in
  if code (peek line) =? code ":"
  then decoded (next line) (Z.to_nat sizeof_data)
  else [].

Fixpoint sum (l : list Z) : Z :=
  match l with
  | [] => 0
  | b :: l' => b + sum l'
  end.

(** *** The transfer encoding, as the specification words it *)

(** Nibble decoding: digits '0'-'9' are 0-9, the letters 'a'-'f' and
    'A'-'F' are 10-15, nothing else is a hex digit. *)
Definition hex_value (c : ascii) : option Z :=
  let n := code c in
  if (code "0" <=? n) && (n <=? code "9") then Some (n - code "0")
  else if (code "a" <=? n) && (n <=? code "f") then Some (n - code "a" + 10)
  else if (code "A" <=? n) && (n <=? code "F") then Some (n - code "A" + 10)
  else None.

(** A body of two-character hex pairs, and the bytes it encodes. *)
Fixpoint hex_decode (body : string) : option (list Z) :=
  match body with
  | EmptyString => Some []
  | String c1 (String c2 body') =>
      match hex_value c1, hex_value c2, hex_decode body' with
      | Some hi, Some lo, Some bs => Some (16 * hi + lo :: bs)
      | _, _, _ => None
      end
  | String _ EmptyString => None
  end.

(** Text in front of the start marker: any characters but [':'] (and NUL,
    which ends a line). *)
Fixpoint is_noise (s : string) : bool :=
  match s with
  | EmptyString => true
  | String c s' => negb (code c =? 0) && negb (code c =? code ":") && is_noise s'
  end.

(** An encoder: upper-case hex pairs. *)
Definition hex_digit (n : Z) : ascii :=
  ascii_of_N (Z.to_N (if n <? 10 then code "0" + n else code "A" + (n - 10))).

Fixpoint hex_encode (bs : list Z) : string :=
  match bs with
  | [] => EmptyString
  | b :: bs' => String (hex_digit (b / 16)) (String (hex_digit (b mod 16)) (hex_encode bs'))
  end.

(** The fields of a record in line order: count, big-endian address, type,
    payload. *)
Definition record_fields (count addr type : Z) (payload : list Z) : list Z :=
  count :: addr / 256 :: addr mod 256 :: type :: payload.

(** The checksum byte: the two's complement of the sum of the bytes before
    it, which makes the sum of all bytes 0 mod 256. *)
Definition checksum_of (bs : list Z) : Z := u8 (- sum bs).

Definition encode_record (count addr type : Z) (payload : list Z) : string :=
  let fields := record_fields count addr type payload in
  String ":" (hex_encode (fields ++ [checksum_of fields])).

(** ** Flash stager and image assembler *)

(** Offset within flash of the new app image. *)
Definition FLASH_IMAGE_OFFSET : Z := 128 * 1024.

(** Capacity of the staging array: [flashbuf] is declared as
    [uint8_t buffer[sizeof(tFlashHeader) + 65536]]. *)
Definition CAPACITY : Z := 65536.

(** Modelled from the spec: the type [tFlashHeader] of [flashloader.h],
    which is not part of the sources.  The header is two magic words, a
    length word and a CRC word, immediately followed by the image bytes. *)
Record tFlashHeader := mkHeader {
  hdr_magic1 : Z;
  hdr_magic2 : Z;
  hdr_length : Z;
  hdr_crc32 : Z;
  hdr_data : list Z
}.

(** Modelled from the spec: [sizeof(tFlashHeader)], four 32-bit words. *)
Definition sizeof_tFlashHeader : Z := 16.

(** The four bytes of a 32-bit word in memory (the target is little-endian). *)
Definition le32 (x : Z) : list Z :=
  [Z.land x 255; Z.land (Z.shiftr x 8) 255;
   Z.land (Z.shiftr x 16) 255; Z.land (Z.shiftr x 24) 255].

(** The header fields as the bytes [(uint8_t* )header] points at. *)
Definition header_bytes (h : tFlashHeader) : list Z :=
  le32 (hdr_magic1 h) ++ le32 (hdr_magic2 h) ++
  le32 (hdr_length h) ++ le32 (hdr_crc32 h).

(** The line ending of the messages, ["\r\n"] in the source. *)
Definition CRLF : string := String "013" (String "010" EmptyString).

(** The calls into the SDK, in the order they are made. *)
Inductive tEvent :=
| uart_puts (s : string)
| save_and_disable_interrupts
| flash_range_erase (flash_offs count : Z)
| flash_range_program (flash_offs : Z) (data : list Z)
| restore_interrupts
| watchdog_scratch (index value : Z)
| watchdog_reboot (pc sp delay_ms : Z).

(** The variables of [readIntelHex] and the memory it writes: the global
    [flashbuf], and the memory that follows [flashbuf], which a [memcpy]
    running past the end of the staging array lands in. *)
Record tState := mkState {
  st_offset : Z;
  st_count : Z;
  st_flashbuf : tFlashHeader;
  st_adjacent : list Z;
  st_trace : list tEvent
}.

(** [Running]: the loop goes on to the next line.  [Halted]: [flashImage]
    was entered, which waits for the watchdog reset and never returns.
    [Fault]: a read past the end of an array. *)
Inductive tOutcome :=
| Running (st : tState)
| Halted (st : tState)
| Fault.

(** What holds of the variables whenever a line is processed: the staging
    array has its 65536 bytes, the cursor is inside it, and the model
    covers the memory an overrun can reach (254 bytes: the cursor is at
    most 65535 and a record has at most 255 bytes). *)
Definition wf_state (st : tState) : Prop :=
  Z.of_nat (length (hdr_data (st_flashbuf st))) = CAPACITY
  /\ 0 <= st_offset st < CAPACITY
  /\ 254 <= Z.of_nat (length (st_adjacent st)).

(** A record as [processRecord] returns it: a count of one byte and the
    256 bytes of [data]. *)
Definition wf_record (r : tRecord) : Prop :=
  0 <= rec_count r <= 255 /\ length (rec_data r) = 256%nat.

(** The whole memory from the start of the staging array on. *)
Definition memory (st : tState) : list Z :=
  hdr_data (st_flashbuf st) ++ st_adjacent st.

(** The payload of a record: the first [count] bytes of its array. *)
Definition payload_of (r : tRecord) : list Z :=
  take (Z.to_nat (rec_count r)) (rec_data r).

(** The bytes written to flash by the calls of a trace, each with the
    flash offset it is written at: the calls in the order they are made,
    the bytes of one call in the order of the block handed to it, that is
    by ascending offset. *)
Fixpoint programmed_from (flash_offs : Z) (data : list Z) : list (Z * Z) :=
  match data with
  | [] => []
  | b :: data' => (flash_offs, b) :: programmed_from (flash_offs + 1) data'
  end.

Fixpoint programmed (events : list tEvent) : list (Z * Z) :=
  match events with
  | [] => []
  | flash_range_program flash_offs data :: events' =>
      programmed_from flash_offs data ++ programmed events'
  | _ :: events' => programmed events'
  end.

(** The [flash_range_program] calls of a trace. *)
Fixpoint program_calls (events : list tEvent) : list (Z * list Z) :=
  match events with
  | [] => []
  | flash_range_program flash_offs data :: events' =>
      (flash_offs, data) :: program_calls events'
  | _ :: events' => program_calls events'
  end.

(** The flash offsets of the two magic words, and those of the image. *)
Definition is_magic_offset (o : Z) : bool :=
  (FLASH_IMAGE_OFFSET <=? o) && (o <? FLASH_IMAGE_OFFSET + 8).

Definition is_image_offset (o : Z) : bool :=
  FLASH_IMAGE_OFFSET + sizeof_tFlashHeader <=? o.

(** The order in which the magic values would be programmed last: once a
    byte of a magic word has been written, no image byte is written any
    more. *)
Fixpoint image_before_magic (w : list (Z * Z)) : bool :=
  match w with
  | [] => true
  | (o, _) :: w' =>
      (negb (is_magic_offset o)
       || forallb (fun x => negb (is_image_offset (fst x))) w')
      && image_before_magic w'
  end.

(** ** Sample data for concrete runs *)

(** A stack array and a record holding zeros, an erased staging buffer and
    254 bytes behind it. *)
Definition stack0 : list Z := replicate 261 0.
Definition rec0 : tRecord := mkRecord 0 0 0 (replicate 256 0).
Definition flashbuf0 : tFlashHeader :=
  mkHeader 0 0 0 0 (replicate (Z.to_nat CAPACITY) 0).
Definition adjacent0 : list Z := replicate 254 0.

(** A DATA line with the largest payload, 255 bytes, and the input it makes
    with that stack and record. *)
Definition full_line : string := encode_record 255 0 0 (replicate 255 0x55).
Definition full_input : string * list Z * tRecord := (full_line, stack0, rec0).

(** The state after two DATA lines of four bytes, and a DATA record as
    [processRecord] returns it. *)
Definition sample_state : tState :=
  mkState 8 2
    (mkHeader 0 0 0 0 ([1; 2; 3; 4; 5; 6; 7; 8] ++ replicate (Z.to_nat 65528) 0))
    adjacent0 [].
Definition sample_record : tRecord :=
  mkRecord 4 0 0 ([9; 10; 11; 12] ++ replicate 252 0).

(** Sample values for the constants that are not part of the sources. *)
Definition MAGIC1_sample : Z := 0x8ecd5efb.
Definition MAGIC2_sample : Z := 0xc5ae52a9.
Definition XIP_BASE_sample : Z := 0x10000000.

(** The calls made by the time an outcome is reached, and whether the
    outcome is the wait for the reset. *)
Definition outcome_trace (o : tOutcome) : list tEvent :=
  match o with
  | Running st | Halted st => st_trace st
  | Fault => []
  end.

Definition is_halted (o : tOutcome) : bool :=
  match o with
  | Halted _ => true
  | _ => false
  end.


(** ** Further definitions *)

(** The upper-case form of a character ('a'-'z' become 'A'-'Z') and of a
    line. *)
Definition upper (c : ascii) : ascii :=
  if (code "a" <=? code c) && (code c <=? code "z")
  then ascii_of_N (Z.to_N (code c - 32))
  else c.

Fixpoint upper_string (s : string) : string :=
  match s with
  | EmptyString => EmptyString
  | String c s' => String (upper c) (upper_string s')
  end.

(** What the stack holds in each turn of the loop.  Neither the array
    [data] of [processRecord] nor the record [rec] of [readIntelHex] is
    initialised: on entry to the [k]-th turn they hold [junk k], whatever
    the turns before left there.  Nothing is known of it but the sizes of
    the two arrays and that [data] is an array of bytes. *)
Definition junk_ok (junk : nat -> list Z * tRecord) : Prop :=
  forall k : nat,
    length (fst (junk k)) = 261%nat
    /\ bytes_ok (fst (junk k))
    /\ length (rec_data (snd (junk k))) = 256%nat.

(** The lines that [getLine] returns as inputs of the loop, the first of
    them in the [k]-th turn. *)
Fixpoint inputs_of (lines : list string) (junk : nat -> list Z * tRecord)
  (k : nat) : list (string * list Z * tRecord) :=
  match lines with
  | [] => []
  | line :: lines' => (line, fst (junk k), snd (junk k)) :: inputs_of lines' junk (S k)
  end.

(** The DATA lines of a transfer: one line for each address and payload. *)
Definition data_lines (items : list (Z * list Z)) : list string :=
  map (fun item =>
         encode_record (Z.of_nat (length (snd item))) (fst item) TYPE_DATA (snd item))
      items.

(** The line of a record given by its type, its address and its payload,
    and what makes these three a record of the format. *)
Definition record_line (r : Z * Z * list Z) : string :=
  encode_record (Z.of_nat (length (snd r))) (snd (fst r)) (fst (fst r)) (snd r).

Definition record_ok (r : Z * Z * list Z) : Prop :=
  is_byte (fst (fst r)) /\ 0 <= snd (fst r) < 65536
  /\ bytes_ok (snd r) /\ (length (snd r) <= 255)%nat.

(** The bytes of a transfer: the payloads of its DATA lines, in line order. *)
Definition image_of (items : list (Z * list Z)) : list Z :=
  concat (map snd items).

(** What makes an address and a payload a DATA line of the format. *)
Definition item_ok (item : Z * list Z) : Prop :=
  0 <= fst item < 65536 /\ bytes_ok (snd item) /\ (length (snd item) <= 255)%nat.

(** The END-OF-FILE line. *)
Definition EOF_line : string := ":00000001FF".

(** The [flash_range_erase] calls of a trace. *)
Fixpoint erase_calls (events : list tEvent) : list (Z * Z) :=
  match events with
  | [] => []
  | flash_range_erase flash_offs count :: events' =>
      (flash_offs, count) :: erase_calls events'
  | _ :: events' => erase_calls events'
  end.

(** *** Reading lines from the UART *)

(** [sizeof(line)] of the [char line[1024]] that [readIntelHex] hands to
    [getLine]. *)
Definition sizeof_line : Z := 1024.

(** The test that ends the [do ... while] of [getLine]: the character is
    ['\n'] or ['\r']. *)
Definition is_line_end (c : ascii) : bool :=
  (code c =? code "010") || (code c =? code "013").

(** What a call of [getLine] comes to.  [Line]: it returns the buffer,
    which holds this string, and these characters are still to be read.
    [Blocked]: [uart_getc] waits for a character after the last one
    received.  [Overrun]: a character is stored past the end of the
    buffer. *)
Inductive tLine :=
| Line (line : string) (input : list ascii)
| Blocked
| Overrun.

(** [getLine(buffer)] on the characters [uart_getc] will deliver, [room]
    being the number of elements of the buffer from [ptr] on.  Each turn of
    the loop takes one character and stores it, or a terminating 0 in the
    place of a line end; nothing checks that [ptr] is still inside the
    buffer. *)
Fixpoint getLine (input : list ascii) (room : nat) {struct input} : tLine :=
  match input with
  | [] => Blocked
  | c :: input' =>
      match room with
      | O => Overrun
      | S room' =>
          if is_line_end c then Line EmptyString input'
          else
            match getLine input' room' with
            | Line line rest => Line (String c line) rest
            | stuck => stuck
            end
      end
  end.

(** A string without line ends. *)
Fixpoint no_line_end (s : string) : bool :=
  match s with
  | EmptyString => true
  | String c s' => negb (is_line_end c) && no_line_end s'
  end.

(** The characters of a text: each line followed by its line end. *)
Fixpoint text_of (lines : list (string * ascii)) : list ascii :=
  match lines with
  | [] => []
  | (line, line_end) :: lines' =>
      list_ascii_of_string line ++ line_end :: text_of lines'
  end.

(** What a line of a text has to be for [getLine] to return it: no line
    end inside, fewer than 1024 characters, and a line end behind it. *)
Definition line_ok (l : string * ascii) : Prop :=
  no_line_end (fst l) = true
  /\ Z.of_nat (String.length (fst l)) < sizeof_line
  /\ is_line_end (snd l) = true.

(** The lines of a text as inputs of the loop, the [k]-th turn of the loop
    meeting the stack and record contents [junk k]. *)
Fixpoint lines_inputs (lines : list (string * ascii))
  (junk : nat -> list Z * tRecord) (k : nat) : list (string * list Z * tRecord) :=
  match lines with
  | [] => []
  | (line, _) :: lines' =>
      (line, fst (junk k), snd (junk k)) :: lines_inputs lines' junk (S k)
  end.

(** What the stack holds when a line is processed, for the bounds of the
    arrays to be meaningful: the 261 bytes of [data] and the 256 bytes of
    the record's array. *)
Definition input_ok (input : string * list Z * tRecord) : Prop :=
  length (snd (fst input)) = 261%nat
  /\ bytes_ok (snd (fst input))
  /\ length (rec_data (snd input)) = 256%nat.

(** A turn of the loop that stays inside its arrays: the line is one that
    the 1024 bytes of [line] hold with its terminating 0, and if it is
    accepted as a DATA record, the record ends inside the staging array. *)
Definition step_inside (st : tState) (line : string) (stack : list Z)
  (rec : tRecord) : bool :=
  (Z.of_nat (String.length line) <? sizeof_line)
  && (let '(success, r) := processRecord line stack rec in
      negb (success && (rec_type r =? TYPE_DATA))
      || (st_offset st + rec_count r <=? CAPACITY)).

(** *** More sample data *)

(** Two DATA lines of four bytes; a transfer of exactly 65536 bytes (257
    lines of 255 bytes and one of a single byte); a body of 261 pairs; 1024
    characters without a line end; a stack of bytes that are not 0. *)
Definition sample_items : list (Z * list Z) :=
  [(0, [1; 2; 3; 4]); (4, [5; 6; 7; 8])].
Definition full_items : list (Z * list Z) :=
  replicate 257 (0, replicate 255 0x55) ++ [(0, [0x55])].
Definition full_body : string := hex_encode (replicate 261 0).
Definition long_front : string :=
  string_of_list_ascii (replicate 1024 "A"%char).
Definition stackEE : list Z := replicate 261 0xEE.

(** Stack contents that differ from turn to turn. *)
Definition sample_junk (k : nat) : list Z * tRecord :=
  (replicate 261 (Z.of_nat k mod 256),
   mkRecord 0 0 0 (replicate 256 (Z.of_nat k mod 256))).

(** The state that 257 DATA lines of 255 bytes 0x55 leave, the cursor on
    the last element of the staging array, and the DATA record of the line
    [":02000000AABB99"]. *)
Definition end_state : tState :=
  mkState 65535 257
    (mkHeader 0 0 0 0 (replicate (Z.to_nat 65535) 0x55 ++ [0])) adjacent0 [].
Definition two_byte_record : tRecord :=
  mkRecord 2 0 0 ([0xAA; 0xBB] ++ replicate 254 0).

(** *** The record count *)

(** A state with another value of [count], and an outcome with [count]
    left out of account: [readIntelHex] increments [count] and never reads
    it. *)
Definition set_count (st : tState) (count : Z) : tState :=
  {| st_offset := st_offset st; st_count := count;
     st_flashbuf := st_flashbuf st; st_adjacent := st_adjacent st;
     st_trace := st_trace st |}.

Definition forget_count (o : tOutcome) : tOutcome :=
  match o with
  | Running st => Running (set_count st 0)
  | Halted st => Halted (set_count st 0)
  | Fault => Fault
  end.

Section App.

(** The constants of [flashloader.h] and of the SDK, which are not part of
    the sources. *)
Variables FLASH_MAGIC1 FLASH_MAGIC2 XIP_BASE : Z.

(** [flashImage(header, length)] up to the final [while(true)]: the header
    as it is left in memory, and the calls made.  The block programmed is
    the first [totalLength] bytes at [header]: the header words, then the
    image bytes.  [None]: [length] is larger than the staging array. *)
Definition flashImage (header : tFlashHeader) (length : Z)
  : option (tFlashHeader * list tEvent) :=
  let totalLength := u32 (sizeof_tFlashHeader + length) in
  let eraseLength := Z.land (u32 (totalLength + 4095)) 0xfffff000 in
  match crc32 (hdr_data header) length 0xffffffff with
  | None => None
  | Some crc =>
      let header :=
        {| hdr_magic1 := FLASH_MAGIC1;
           hdr_magic2 := FLASH_MAGIC2;
           hdr_length := length;
           hdr_crc32 := crc;
           hdr_data := hdr_data header |} in
      Some (header,
            [ uart_puts ("Storing new image in flash and then rebooting" +:+ CRLF);
              save_and_disable_interrupts;
              flash_range_erase FLASH_IMAGE_OFFSET eraseLength;
              flash_range_program FLASH_IMAGE_OFFSET
                (take (Z.to_nat totalLength) (header_bytes header ++ hdr_data header));
              restore_interrupts;
              uart_puts ("Rebooting into flashloader in 1 second" +:+ CRLF);
              watchdog_scratch 0 FLASH_MAGIC1;
              watchdog_scratch 1 (u32 (XIP_BASE + FLASH_IMAGE_OFFSET));
              watchdog_reboot 0 0 1000 ])
  end.

(** [case TYPE_DATA]: the [memcpy] into [flashbuf.header.data] at [offset]
    (it is given no bound: what runs past the array is stored in the memory
    behind it, so the copy is made on the array followed by that memory,
    which is then split again where the array ends), then
    [offset += rec.count; offset %= 65536;] and the progress message. *)
Definition store_data (st : tState) (rec : tRecord) : tState :=
  let h := st_flashbuf st in
  let mem := memcpy (hdr_data h ++ st_adjacent st) (st_offset st)
               (rec_data rec) 0 (rec_count rec) in
  let cap := length (hdr_data h) in
  let offset := u32 (st_offset st + rec_count rec) in
  let offset := offset mod 65536 in
  {| st_offset := offset;
     st_count := st_count st;
     st_flashbuf :=
       {| hdr_magic1 := hdr_magic1 h; hdr_magic2 := hdr_magic2 h;
          hdr_length := hdr_length h; hdr_crc32 := hdr_crc32 h;
          hdr_data := take cap mem |};
     st_adjacent := drop cap mem;
     st_trace :=
       if offset mod 1024 =? 0
       then st_trace st ++ [uart_puts ("Received block" +:+ CRLF)]
       else st_trace st |}.

Definition set_offset (st : tState) (offset : Z) : tState :=
  {| st_offset := offset; st_count := st_count st;
     st_flashbuf := st_flashbuf st; st_adjacent := st_adjacent st;
     st_trace := st_trace st |}.

(** [count++] *)
Definition count_record (st : tState) : tState :=
  {| st_offset := st_offset st; st_count := u32 (st_count st + 1);
     st_flashbuf := st_flashbuf st; st_adjacent := st_adjacent st;
     st_trace := st_trace st |}.

(** The [switch(rec.type)] of [readIntelHex] and the [count++] after it. *)
Definition dispatch (st : tState) (rec : tRecord) : tOutcome :=
  let t := rec_type rec in
  if t =? TYPE_DATA then Running (count_record (store_data st rec))
  else if t =? TYPE_EOF then
    match flashImage (st_flashbuf st) (st_offset st) with
    | None => Fault
    | Some (header, events) =>
        Halted {| st_offset := st_offset st; st_count := st_count st;
                  st_flashbuf := header; st_adjacent := st_adjacent st;
                  st_trace := st_trace st ++ events |}
    end
  else if (t =? TYPE_EXTSEG) || (t =? TYPE_STARTSEG) || (t =? TYPE_STARTLIN)
  then Running (count_record st)
  else if t =? TYPE_EXTLIN then Running (count_record (set_offset st 0))
  else Running (count_record st).

(** One iteration of the [while (true)] of [readIntelHex], on the line that
    [getLine] returned.  [stack] is what the array [data] of [processRecord]
    holds on entry and [rec] what the local [tRecord rec] holds, neither
    being initialised. *)
Definition loop_body (st : tState) (line : string) (stack : list Z)
  (rec : tRecord) : tOutcome :=
  let '(success, rec) := processRecord line stack rec in
  if success then dispatch st rec else Running st.

(** [readIntelHex] on the lines received so far; [Running] at the end means
    the loop is waiting in [getLine]. *)
Fixpoint run (st : tState) (inputs : list (string * list Z * tRecord))
  : tOutcome :=
  match inputs with
  | [] => Running st
  | (line, stack, rec) :: inputs' =>
      match loop_body st line stack rec with
      | Running st' => run st' inputs'
      | halted => halted
      end
  end.

(** The state on entry to [readIntelHex]: [offset = 0], [count = 0]. *)
Definition initial (flashbuf : tFlashHeader) (adjacent : list Z) : tState :=
  mkState 0 0 flashbuf adjacent [].

Definition readIntelHex (flashbuf : tFlashHeader) (adjacent : list Z)
  (inputs : list (string * list Z * tRecord)) : tOutcome :=
  run (initial flashbuf adjacent) inputs.



(** [readIntelHex] on the characters the UART will deliver: each turn of
    the [while (true)] calls [getLine], then [processRecord] and the
    [switch].  [junk k] is what the stack holds in the [k]-th turn.  The
    loop ends when [getLine] blocks ([Running]: it waits there), when
    [flashImage] is entered, or when an array is overrun ([Fault]).  Every
    turn takes at least one character, so [fuel] larger than the number of
    characters is never used up. *)
Fixpoint uart_loop (fuel : nat) (st : tState) (input : list ascii)
  (junk : nat -> list Z * tRecord) (k : nat) {struct fuel} : tOutcome :=
  match fuel with
  | O => Running st
  | S fuel' =>
      match getLine input (Z.to_nat sizeof_line) with
      | Blocked => Running st
      | Overrun => Fault
      | Line line input' =>
          match loop_body st line (fst (junk k)) (snd (junk k)) with
          | Running st' => uart_loop fuel' st' input' junk (S k)
          | stopped => stopped
          end
      end
  end.

Definition readIntelHex_uart (flashbuf : tFlashHeader) (adjacent : list Z)
  (input : list ascii) (junk : nat -> list Z * tRecord) : tOutcome :=
  uart_loop (S (length input)) (initial flashbuf adjacent) input junk 0.

(** A run of the loop in which every turn stays inside its arrays. *)
Fixpoint run_inside (st : tState) (inputs : list (string * list Z * tRecord))
  : bool :=
  match inputs with
  | [] => true
  | (line, stack, rec) :: inputs' =>
      step_inside st line stack rec
      && match loop_body st line stack rec with
         | Running st' => run_inside st' inputs'
         | _ => true
         end
  end.

(** * Properties *)

(** ** Checksum engine *)

Lemma lxor_u32_range (a b : Z) :
  0 <= a < 2 ^ 32 -> 0 <= b < 2 ^ 32 -> 0 <= Z.lxor a b < 2 ^ 32.
Proof.
  intros Ha Hb. split.
  - apply Z.lxor_nonneg. lia.
  - destruct (Z.eq_dec (Z.lxor a b) 0) as [-> | Hne]; [lia |].
    assert (0 < Z.lxor a b) by (pose proof (proj2 (Z.lxor_nonneg a b)); lia).
    apply Z.log2_lt_pow2; [lia |].
    pose proof (Z.log2_lxor a b ltac:(lia) ltac:(lia)) as Hl.
    assert (Z.log2 a < 32).
    { destruct (Z.eq_dec a 0) as [-> | ?]; [reflexivity |].
      apply Z.log2_lt_pow2; lia. }
    assert (Z.log2 b < 32).
    { destruct (Z.eq_dec b 0) as [-> | ?]; [reflexivity |].
      apply Z.log2_lt_pow2; lia. }
    lia.
Qed.

Lemma top_bit_test (crc : Z) :
  0 <= crc < 2 ^ 32 ->
  negb (Z.land crc (Z.shiftl 1 31) =? 0) = (2 ^ 31 <=? crc).
Proof.
  intros Hc.
  assert (Hland : Z.land crc (Z.shiftl 1 31) = if Z.testbit crc 31 then 2 ^ 31 else 0).
  { apply Z.bits_inj'. intros n Hn.
    rewrite Z.land_spec, Z.shiftl_1_l, Z.pow2_bits_eqb by lia.
    destruct (Z.eqb_spec 31 n) as [<- | Hne].
    - rewrite andb_true_r. destruct (Z.testbit crc 31).
      + rewrite Z.pow2_bits_true; lia.
      + rewrite Z.bits_0. reflexivity.
    - rewrite andb_false_r. destruct (Z.testbit crc 31).
      + rewrite Z.pow2_bits_false; lia.
      + rewrite Z.bits_0. reflexivity. }
  rewrite Hland.
  destruct (Z.leb_spec (2 ^ 31) crc) as [Hge | Hlt].
  - replace (Z.testbit crc 31) with true; [reflexivity |].
    symmetry. apply Z.testbit_true; [lia |].
    assert (crc / 2 ^ 31 = 1) as ->; [| reflexivity].
    symmetry. apply (Z.div_unique crc (2 ^ 31) 1 (crc - 2 ^ 31)); lia.
  - replace (Z.testbit crc 31) with false; [reflexivity |].
    symmetry. apply Z.testbit_false; [lia |].
    rewrite Z.div_small by lia. reflexivity.
Qed.

Lemma crc32_spec_round_range (crc : Z) :
  0 <= crc32_spec_round crc < 2 ^ 32.
Proof.
  unfold crc32_spec_round.
  assert (0 <= (2 * crc) mod 2 ^ 32 < 2 ^ 32) by (apply Z.mod_pos_bound; lia).
  destruct (2 ^ 31 <=? crc); [apply lxor_u32_range; lia | lia].
Qed.

Lemma crc32_round_spec (crc : Z) :
  0 <= crc < 2 ^ 32 -> crc32_round crc = crc32_spec_round crc.
Proof.
  intros Hc. unfold crc32_round, crc32_spec_round, u32.
  rewrite top_bit_test by exact Hc.
  rewrite Z.shiftl_mul_pow2 by lia.
  replace (crc * 2 ^ 1) with (2 * crc) by lia. reflexivity.
Qed.

Lemma crc32_bits_spec (n : nat) (crc : Z) :
  0 <= crc < 2 ^ 32 ->
  crc32_bits n crc = Nat.iter n crc32_spec_round crc
  /\ 0 <= crc32_bits n crc < 2 ^ 32.
Proof.
  revert crc. induction n as [| n IH]; intros crc Hc; [easy |].
  cbn [crc32_bits]. rewrite crc32_round_spec by exact Hc.
  destruct (IH (crc32_spec_round crc) (crc32_spec_round_range crc)) as [-> Hr].
  split; [| exact Hr].
  symmetry. apply Nat.iter_succ_r.
Qed.

Lemma crc32_byte_spec (crc b : Z) :
  0 <= crc < 2 ^ 32 -> is_byte b ->
  crc32_byte crc b = crc32_spec_byte crc b
  /\ 0 <= crc32_byte crc b < 2 ^ 32.
Proof.
  intros Hc Hb. unfold is_byte in Hb. unfold crc32_byte, crc32_spec_byte, u32.
  rewrite Z.shiftl_mul_pow2 by lia.
  rewrite (Z.mod_small (b * 2 ^ 24)) by lia.
  apply crc32_bits_spec. apply lxor_u32_range; lia.
Qed.

Lemma crc32_loop_spec (data : list Z) (len : nat) (crc : Z) :
  bytes_ok data -> 0 <= crc < 2 ^ 32 -> (len <= length data)%nat ->
  crc32_loop data len crc = Some (crc32_spec (take len data) crc)
  /\ 0 <= crc32_spec (take len data) crc < 2 ^ 32.
Proof.
  revert data crc. induction len as [| len IH]; intros data crc Hd Hc Hl.
  - rewrite take_0. split; [reflexivity | exact Hc].
  - destruct data as [| b data]; [cbn in Hl; lia |].
    apply Forall_cons in Hd as [Hb Hd].
    destruct (crc32_byte_spec crc b Hc Hb) as [Heq Hr].
    cbn [crc32_loop take firstn crc32_spec fold_left].
    rewrite <- Heq. apply IH; [exact Hd | exact Hr | cbn in Hl; lia].
Qed.

(** [C6] For every byte array, length within the array and 32-bit seed,
    [crc32] returns the value of the specification's bit-by-bit definition
    over the first [len] bytes: each byte XORed into the high-order 8 bits,
    then 8 rounds of shift-left with XOR of 0x04C11DB7 when the top bit was
    set, arithmetic mod 2^32.  Nothing is reflected and nothing is XORed at
    the end: over no bytes the result is the seed, and the catalogued check
    value of this polynomial with seed 0xFFFFFFFF, 0x0376E6E7 for the ASCII
    bytes of 123456789, is reproduced. *)
Theorem crc32_matches_reference (data : list Z) (len seed : Z) :
  bytes_ok data -> 0 <= seed < 2 ^ 32 -> 0 <= len <= Z.of_nat (length data) ->
  crc32 data len seed = Some (crc32_spec (take (Z.to_nat len) data) seed)
  /\ crc32 data 0 seed = Some seed
  /\ crc32 (bytes_of_string "123456789") 9 0xFFFFFFFF = Some 0x0376E6E7
  /\ crc32_spec (bytes_of_string "123456789") 0xFFFFFFFF = 0x0376E6E7.
Proof.
  intros Hd Hs Hl. split; [| split; [reflexivity | split; vm_compute; reflexivity]].
  unfold crc32. apply crc32_loop_spec; [exact Hd | exact Hs | lia].
Qed.

Lemma crc32_matches_reference_witness :
  crc32 [0x12; 0x34; 0x56] 2 0xFFFFFFFF
  = Some (crc32_spec (take (Z.to_nat 2) [0x12; 0x34; 0x56]) 0xFFFFFFFF).
Proof.
  refine (proj1 (crc32_matches_reference [0x12; 0x34; 0x56] 2 0xFFFFFFFF _ _ _)).
  - repeat constructor; unfold is_byte; lia.
  - lia.
  - simpl. lia.
Defined.

(** ** Record parser: characters and pairs *)

Lemma code_range (c : ascii) : 0 <= code c < 256.
Proof.
  unfold code. pose proof (N_ascii_bounded c). lia.
Qed.

Lemma hex2nibble_nibble_of (c : ascii) (value : Z) :
  hex2nibble c value =
  match nibble_of c with
  | Some n => (true, u8 (Z.lor (u8 (Z.shiftl value 4)) n))
  | None => (false, value)
  end.
Proof.
  destruct c as [[] [] [] [] [] [] [] []]; reflexivity.
Qed.

Lemma hex_value_nibble_of (c : ascii) (n : Z) :
  hex_value c = Some n -> nibble_of c = Some n /\ 0 <= n < 16.
Proof.
  destruct c as [[] [] [] [] [] [] [] []]; vm_compute; intros H;
    try discriminate H; injection H as <-; repeat split; congruence.
Qed.

(** The sixteen nibble values, for properties checked by enumeration. *)
Lemma nibble_enumerated (n : Z) :
  0 <= n < 16 -> In n (map Z.of_nat (seq 0 16)).
Proof.
  intros Hn. apply in_map_iff. exists (Z.to_nat n).
  split; [lia | apply in_seq; lia].
Qed.

Lemma nibble_join (hi lo : Z) :
  0 <= hi < 16 -> 0 <= lo < 16 ->
  u8 (Z.lor (u8 (Z.shiftl (u8 (Z.lor (u8 (Z.shiftl 0 4)) hi)) 4)) lo) = 16 * hi + lo.
Proof.
  intros Hh Hl.
  set (join h l := u8 (Z.lor (u8 (Z.shiftl (u8 (Z.lor (u8 (Z.shiftl 0 4)) h)) 4)) l)).
  assert (Hall : forallb (fun h => forallb (fun l => join h l =? 16 * h + l)
                                     (map Z.of_nat (seq 0 16)))
                   (map Z.of_nat (seq 0 16)) = true) by (vm_compute; reflexivity).
  rewrite forallb_forall in Hall.
  specialize (Hall hi (nibble_enumerated hi Hh)).
  rewrite forallb_forall in Hall.
  apply Z.eqb_eq, (Hall lo (nibble_enumerated lo Hl)).
Qed.

Lemma parseHex_pair (c1 c2 : ascii) (rest : string) (hi lo : Z) :
  hex_value c1 = Some hi -> hex_value c2 = Some lo ->
  parseHex (String c1 (String c2 rest)) = (true, 16 * hi + lo)
  /\ is_byte (16 * hi + lo).
Proof.
  intros H1 H2.
  apply hex_value_nibble_of in H1 as [N1 R1], H2 as [N2 R2].
  unfold parseHex. cbn [peek next].
  rewrite (hex2nibble_nibble_of c1), N1, (hex2nibble_nibble_of c2), N2.
  rewrite nibble_join by assumption.
  split; [reflexivity | unfold is_byte; lia].
Qed.

(** [parseHex] converts nothing at the end of the string or in front of a
    lone last character. *)
Lemma parseHex_short (line : string) :
  fst (parseHex line) = true ->
  exists c1 c2 line', line = String c1 (String c2 line').
Proof.
  unfold parseHex. intros H.
  destruct line as [| c1 [| c2 line']]; [discriminate H | | eauto].
  cbn [peek next] in H. rewrite (hex2nibble_nibble_of c1) in H.
  destruct (nibble_of c1); [| discriminate H].
  rewrite hex2nibble_nibble_of in H. discriminate H.
Qed.

Lemma parseHex_byte (line : string) :
  is_byte (snd (parseHex line)).
Proof.
  unfold parseHex, is_byte.
  rewrite (hex2nibble_nibble_of (peek line)).
  destruct (nibble_of (peek line)) as [n1 |]; [| cbn; lia].
  rewrite hex2nibble_nibble_of.
  destruct (nibble_of (peek (next line))) as [n2 |]; cbn [snd]; unfold u8 at 1.
  - apply Z.mod_pos_bound. lia.
  - apply Z.mod_pos_bound. lia.
Qed.

(** ** Record parser: the decode loop *)

Lemma decode_loop_eq (line : string) (offset checksum : Z) (data : list Z) :
  decode_loop line offset checksum data =
  let '(success, value) := parseHex line in
  if success && (offset <? sizeof_data) then
    match line with
    | String _ (String _ line') =>
        decode_loop line' (offset + 1) (u8 (checksum + value)) (wr data offset value)
    | _ => (offset, checksum, data)
    end
  else (offset, checksum, data).
Proof. destruct line; reflexivity. Qed.

(** The loop stores the bytes of [decoded] from [data[offset]] on, counts
    them in [offset] and sums them mod 256 in [checksum]. *)
Lemma decode_loop_decoded (room : nat) :
  forall (line : string) (o : nat) (checksum : Z) (data : list Z),
    0 <= checksum < 256 -> (o + room = 261)%nat ->
    decode_loop line (Z.of_nat o) checksum data =
    (Z.of_nat (o + length (decoded line room)),
     u8 (checksum + sum (decoded line room)),
     list_inserts o (decoded line room) data).
Proof.
  induction room as [| room IH]; intros line o checksum data Hc Ho;
    rewrite decode_loop_eq; cbn [decoded].
  - destruct (parseHex line) as [success value].
    replace (Z.of_nat o <? sizeof_data) with false
      by (symmetry; apply Z.ltb_ge; unfold sizeof_data; lia).
    rewrite andb_false_r. cbn [length sum list_inserts].
    rewrite Nat.add_0_r, Z.add_0_r. unfold u8. rewrite Z.mod_small by lia.
    reflexivity.
  - pose proof (parseHex_short line) as Hshort.
    destruct (parseHex line) as [success value].
    replace (Z.of_nat o <? sizeof_data) with true
      by (symmetry; apply Z.ltb_lt; unfold sizeof_data; lia).
    rewrite andb_true_r. destruct success.
    + destruct (Hshort eq_refl) as (c1 & c2 & line' & ->).
      replace (Z.of_nat o + 1) with (Z.of_nat (S o)) by lia.
      rewrite IH; [| unfold u8; apply Z.mod_pos_bound; lia | lia].
      cbn [length sum list_inserts]. f_equal; [f_equal |].
      * lia.
      * unfold u8. rewrite Zplus_mod_idemp_l. f_equal. lia.
      * unfold wr. rewrite Nat2Z.id.
        symmetry. apply list_insert_inserts_lt. lia.
    + cbn [length sum list_inserts].
      rewrite Nat.add_0_r, Z.add_0_r. unfold u8. rewrite Z.mod_small by lia.
      reflexivity.
Qed.

(** [processRecord] accepts exactly when a byte was decoded and the decoded
    bytes sum to 0 mod 256; it then reads the record from the array the
    bytes were stored into, whose other elements are what the stack held. *)
Lemma processRecord_decoded (line : string) (stack : list Z) (record : tRecord) :
  processRecord line stack record =
  if (0 <? Z.of_nat (length (record_bytes line))) && (u8 (sum (record_bytes line)) =? 0)
  then (true, record_of (list_inserts 0 (record_bytes line) stack) record)
  else (false, record).
Proof.
  unfold processRecord, record_bytes.
  destruct (code (peek (skip_to_colon line)) =? code ":").
  - rewrite (decode_loop_decoded (Z.to_nat sizeof_data) _ 0%nat 0 stack)
      by (unfold sizeof_data; lia).
    rewrite Nat.add_0_l, Z.add_0_l. reflexivity.
  - reflexivity.
Qed.

Lemma decoded_length (room : nat) (line : string) :
  (length (decoded line room) <= room)%nat.
Proof.
  revert line. induction room as [| room IH]; intros line; cbn [decoded]; [cbn; lia |].
  destruct (parseHex line) as [[] value]; [| cbn; lia].
  destruct line as [| c1 [| c2 line']]; cbn [length]; [lia | lia |].
  specialize (IH line'). lia.
Qed.

Lemma decoded_bytes_ok (room : nat) (line : string) :
  bytes_ok (decoded line room).
Proof.
  revert line. induction room as [| room IH]; intros line; cbn [decoded];
    [constructor |].
  pose proof (parseHex_byte line) as Hb.
  destruct (parseHex line) as [[] value]; [| constructor].
  destruct line as [| c1 [| c2 line']]; constructor; [exact Hb | apply IH].
Qed.

(** ** Record parser: well-formed lines *)

Lemma hex_decode_bytes_ok (body : string) :
  forall bs, hex_decode body = Some bs -> bytes_ok bs.
Proof.
  assert (Hn : forall (n : nat) body, (String.length body <= n)%nat ->
                 forall bs, hex_decode body = Some bs -> bytes_ok bs).
  { clear body. induction n as [| n IH]; intros body Hlen bs H;
      destruct body as [| c1 [| c2 body']]; cbn [hex_decode] in H;
      try discriminate H; try (injection H as <-; constructor);
      cbn [String.length] in Hlen; try lia.
    destruct (hex_value c1) as [hi |] eqn:H1; [| discriminate H].
    destruct (hex_value c2) as [lo |] eqn:H2; [| discriminate H].
    destruct (hex_decode body') as [bs' |] eqn:H3; [| discriminate H].
    injection H as <-. constructor.
    - apply (parseHex_pair c1 c2 EmptyString hi lo H1 H2).
    - apply (IH body'); [lia | exact H3]. }
  apply (Hn (String.length body)). lia.
Qed.

Lemma decoded_stop (tail : string) (room : nat) :
  fst (parseHex tail) = false -> decoded tail room = [].
Proof.
  intros H. destruct room; cbn [decoded]; [reflexivity |].
  destruct (parseHex tail) as [success value]. cbn in H. subst success.
  reflexivity.
Qed.

(** On a body of hex pairs the loop decodes the encoded bytes, and stops
    where the pairs end. *)
Lemma decoded_hex_decode (bs : list Z) :
  forall (body tail : string) (room : nat),
    hex_decode body = Some bs -> fst (parseHex tail) = false ->
    (length bs <= room)%nat ->
    decoded (body +:+ tail) room = bs.
Proof.
  induction bs as [| b bs IH]; intros body tail room Hd Ht Hl.
  - destruct body as [| c1 [| c2 body']]; cbn [hex_decode] in Hd.
    + cbn. apply decoded_stop, Ht.
    + discriminate Hd.
    + destruct (hex_value c1), (hex_value c2), (hex_decode body'); discriminate Hd.
  - destruct body as [| c1 [| c2 body']]; cbn [hex_decode] in Hd; try discriminate Hd.
    destruct (hex_value c1) as [hi |] eqn:H1; [| discriminate Hd].
    destruct (hex_value c2) as [lo |] eqn:H2; [| discriminate Hd].
    destruct (hex_decode body') as [bs' |] eqn:H3; [| discriminate Hd].
    injection Hd as <- <-.
    destruct room as [| room]; [cbn in Hl; lia |].
    cbn [decoded].
    change (String c1 (String c2 body') +:+ tail)
      with (String c1 (String c2 (body' +:+ tail))).
    destruct (parseHex_pair c1 c2 (body' +:+ tail) hi lo H1 H2) as [-> _].
    f_equal. apply IH; [exact H3 | exact Ht | cbn in Hl; lia].
Qed.

Lemma skip_to_colon_noise (noise rest : string) :
  is_noise noise = true ->
  skip_to_colon (noise +:+ String ":" rest) = String ":" rest.
Proof.
  induction noise as [| c noise IH]; intros H.
  - reflexivity.
  - change (String c noise +:+ String ":" rest)
      with (String c (noise +:+ String ":" rest)).
    cbn [skip_to_colon]. cbn [is_noise] in H. apply andb_prop in H as [Hc Hn]. rewrite Hc. apply IH, Hn.
Qed.

Lemma record_bytes_well_formed (noise body tail : string) (bs : list Z) :
  is_noise noise = true -> hex_decode body = Some bs ->
  fst (parseHex tail) = false -> (length bs <= 261)%nat ->
  record_bytes (noise +:+ String ":" (body +:+ tail)) = bs.
Proof.
  intros Hn Hd Ht Hl. unfold record_bytes.
  rewrite skip_to_colon_noise by exact Hn. cbn [peek next].
  rewrite Z.eqb_refl. apply decoded_hex_decode; assumption.
Qed.

Lemma lor_shiftl_add (lo hi k : Z) :
  0 <= k -> 0 <= lo < 2 ^ k -> 0 <= hi ->
  Z.lor lo (Z.shiftl hi k) = lo + hi * 2 ^ k.
Proof.
  intros Hk Hlo Hhi.
  assert (Hland : Z.land lo (Z.shiftl hi k) = 0).
  { apply Z.bits_inj'. intros n Hn. rewrite Z.land_spec, Z.bits_0.
    destruct (Z.lt_ge_cases n k) as [Hlt | Hge].
    - rewrite Z.shiftl_spec_low by lia. apply andb_false_r.
    - assert (Z.testbit lo n = false) as ->; [| reflexivity].
      destruct (Z.eq_dec lo 0) as [-> | Hne]; [apply Z.bits_0 |].
      apply Z.bits_above_log2; [lia |].
      apply Z.lt_le_trans with k; [| exact Hge].
      apply Z.log2_lt_pow2; lia. }
  rewrite <- Z.lxor_lor by exact Hland.
  rewrite <- Z.add_nocarry_lxor by exact Hland.
  rewrite Z.shiftl_mul_pow2 by lia. reflexivity.
Qed.

Lemma list_inserts_0_prefix (k l : list Z) :
  (length k <= length l)%nat -> list_inserts 0 k l = k ++ drop (length k) l.
Proof.
  intros H. rewrite <- (take_drop (length k) l) at 1.
  apply list_inserts_0_r. rewrite length_take. lia.
Qed.

Lemma list_inserts_splice (i : nat) (k l : list Z) :
  (i + length k <= length l)%nat ->
  list_inserts i k l = take i l ++ k ++ drop (i + length k) l.
Proof.
  intros H. rewrite <- (take_drop i l) at 1.
  assert (Hi : length (take i l) = i) by (rewrite length_take; lia).
  rewrite <- Hi at 1. rewrite <- (Nat.add_0_r (length (take i l))).
  rewrite list_inserts_app_r. f_equal.
  rewrite list_inserts_0_prefix by (rewrite length_drop; lia).
  rewrite drop_drop. reflexivity.
Qed.

(** The record read from the array when the bytes of a whole record
    (fields, payload, checksum byte) were stored at its start. *)
Lemma record_of_fields (count ah al ty ck : Z) (payload rest : list Z)
  (record : tRecord) :
  is_byte ah -> is_byte al ->
  count = Z.of_nat (length payload) ->
  (length payload <= length (rec_data record))%nat ->
  record_of (count :: ah :: al :: ty :: payload ++ ck :: rest) record =
  {| rec_count := count;
     rec_addr := 256 * ah + al;
     rec_type := ty;
     rec_data := payload ++ drop (length payload) (rec_data record) |}.
Proof.
  intros Hah Hal Hc Hl. unfold is_byte in *. unfold record_of, rd, memcpy.
  change (Z.to_nat 0) with 0%nat. change (Z.to_nat 1) with 1%nat.
  change (Z.to_nat 2) with 2%nat. change (Z.to_nat 3) with 3%nat.
  change (Z.to_nat 4) with 4%nat. cbn [lookup list_lookup default from_option id drop skipn].
  unfold id.
  f_equal.
  - rewrite lor_shiftl_add by lia. unfold u16. rewrite Z.mod_small; lia.
  - rewrite drop_0, Hc, Nat2Z.id, take_app_length.
    apply list_inserts_0_prefix, Hl.
Qed.

(** A whole record after the marker: the record that is returned. *)
Lemma processRecord_well_formed (noise body tail : string)
  (count ah al ty ck : Z) (payload stack : list Z) (record : tRecord) :
  length stack = 261%nat -> length (rec_data record) = 256%nat ->
  is_noise noise = true ->
  hex_decode body = Some (count :: ah :: al :: ty :: payload ++ [ck]) ->
  fst (parseHex tail) = false ->
  count = Z.of_nat (length payload) ->
  processRecord (noise +:+ String ":" (body +:+ tail)) stack record =
  if u8 (sum (count :: ah :: al :: ty :: payload ++ [ck])) =? 0
  then (true,
        {| rec_count := count;
           rec_addr := 256 * ah + al;
           rec_type := ty;
           rec_data := payload ++ drop (length payload) (rec_data record) |})
  else (false, record).
Proof.
  intros Hs Hr Hn Hd Ht Hc.
  pose proof (hex_decode_bytes_ok _ _ Hd) as Hb.
  apply Forall_cons in Hb as [Hcount Hb]. apply Forall_cons in Hb as [Hah Hb].
  apply Forall_cons in Hb as [Hal _]. unfold is_byte in Hcount.
  assert (Hlen : (length (count :: ah :: al :: ty :: payload ++ [ck]) <= 261)%nat).
  { cbn [length]. rewrite length_app. cbn [length]. lia. }
  rewrite processRecord_decoded.
  rewrite (record_bytes_well_formed noise body tail _ Hn Hd Ht Hlen).
  replace (0 <? Z.of_nat (length (count :: ah :: al :: ty :: payload ++ [ck])))
    with true by (symmetry; apply Z.ltb_lt; cbn [length]; lia).
  cbn [andb]. destruct (_ =? 0); [| reflexivity].
  rewrite list_inserts_0_prefix by lia.
  cbn [app]. rewrite <- app_assoc. cbn [app].
  rewrite record_of_fields; [reflexivity | exact Hah | exact Hal | exact Hc | lia].
Qed.

Lemma string_app_empty_r (s : string) : s +:+ EmptyString = s.
Proof.
  induction s as [| c s IH]; [reflexivity |].
  change (String c s +:+ "") with (String c (s +:+ "")). rewrite IH. reflexivity.
Qed.

Lemma parseHex_empty : fst (parseHex EmptyString) = false.
Proof. reflexivity. Qed.

(** [C4] A line made of ignored text, the [':'] marker and hex pairs for
    count, big-endian address, type, [count] payload bytes and a checksum
    byte is accepted when its bytes sum to 0 mod 256, with a record holding
    exactly the encoded count, address, type and payload (the checksum byte
    is not in the payload), and rejected when the sum is not 0.  Any line
    whose decoded bytes sum to a nonzero value, or from which no byte is
    decoded, is rejected.  A line whose hex pairs are cut short by a pair
    that is not converted is judged on the pairs in front of it alone:
    accepted exactly when there is at least one and they sum to 0 mod 256. *)
Theorem processRecord_checksummed_line (noise body : string)
  (count ah al ty ck : Z) (payload stack : list Z) (record : tRecord) :
  length stack = 261%nat -> length (rec_data record) = 256%nat ->
  is_noise noise = true ->
  hex_decode body = Some (count :: ah :: al :: ty :: payload ++ [ck]) ->
  count = Z.of_nat (length payload) ->
  processRecord (noise +:+ String ":" body) stack record =
    (if u8 (sum (count :: ah :: al :: ty :: payload ++ [ck])) =? 0
     then (true,
           {| rec_count := count;
              rec_addr := 256 * ah + al;
              rec_type := ty;
              rec_data := payload ++ drop (length payload) (rec_data record) |})
     else (false, record))
  /\ (forall line : string,
        u8 (sum (record_bytes line)) <> 0 \/ record_bytes line = [] ->
        processRecord line stack record = (false, record))
  /\ (forall (front tail : string) (bs : list Z),
        hex_decode front = Some bs -> (length bs <= 261)%nat ->
        fst (parseHex tail) = false ->
        fst (processRecord (noise +:+ String ":" (front +:+ tail)) stack record)
        = (0 <? Z.of_nat (length bs)) && (u8 (sum bs) =? 0)).
Proof.
  intros Hs Hr Hn Hd Hc. split; [| split].
  - rewrite <- (string_app_empty_r body) at 1.
    apply processRecord_well_formed; auto using parseHex_empty.
  - intros line H. rewrite processRecord_decoded.
    destruct H as [H | ->].
    + apply Z.eqb_neq in H. rewrite H, andb_false_r. reflexivity.
    + reflexivity.
  - intros front tail bs Hf Hl Ht. rewrite processRecord_decoded.
    rewrite (record_bytes_well_formed noise front tail bs Hn Hf Ht Hl).
    destruct (_ && _); reflexivity.
Qed.

Lemma processRecord_checksummed_line_witness :
  processRecord "abc:0300300002337a1E" stack0 rec0 =
  (true, mkRecord 3 0x30 0 ([2; 0x33; 0x7a] ++ drop 3 (rec_data rec0))).
Proof.
  refine (proj1 (processRecord_checksummed_line "abc" "0300300002337a1E"
                   3 0 0x30 0 0x1e [2; 0x33; 0x7a] stack0 rec0 _ _ _ _ _));
    reflexivity.
Defined.

(** The claim of [C4] that a line with invalid hex in the place of a record
    is always rejected fails: the type and checksum pairs of this line are
    replaced by characters that are not hex digits, and it is accepted. *)
Lemma processRecord_accepts_invalid_hex :
  hex_decode "000000??FF" = None
  /\ fst (processRecord ":000000??FF" stack0 rec0) = true.
Proof. split; reflexivity. Qed.

(** ** Record parser: round trip *)

Lemma hex_value_hex_digit (n : Z) :
  0 <= n < 16 -> hex_value (hex_digit n) = Some n.
Proof.
  intros Hn.
  assert (Hall : forallb (fun d => match hex_value (hex_digit d) with
                                   | Some v => v =? d
                                   | None => false
                                   end)
                   (map Z.of_nat (seq 0 16)) = true) by (vm_compute; reflexivity).
  rewrite forallb_forall in Hall. specialize (Hall n (nibble_enumerated n Hn)).
  destruct (hex_value (hex_digit n)) as [v |]; [| discriminate Hall].
  apply Z.eqb_eq in Hall. congruence.
Qed.

Lemma hex_decode_encode (bs : list Z) :
  bytes_ok bs -> hex_decode (hex_encode bs) = Some bs.
Proof.
  induction 1 as [| b bs Hb _ IH]; [reflexivity |].
  unfold is_byte in Hb. cbn [hex_encode hex_decode].
  rewrite !hex_value_hex_digit, IH.
  - f_equal. f_equal. pose proof (Z.div_mod b 16). lia.
  - apply Z.mod_pos_bound. lia.
  - split; [apply Z.div_pos; lia | apply Z.div_lt_upper_bound; lia].
Qed.

Lemma sum_app (l1 l2 : list Z) : sum (l1 ++ l2) = sum l1 + sum l2.
Proof.
  induction l1 as [| b l1 IH]; cbn [app sum]; [reflexivity | rewrite IH; lia].
Qed.

Lemma checksum_of_closes (fields : list Z) :
  is_byte (checksum_of fields) /\ u8 (sum (fields ++ [checksum_of fields])) = 0.
Proof.
  unfold checksum_of, is_byte, u8. split; [apply Z.mod_pos_bound; lia |].
  rewrite sum_app. cbn [sum]. rewrite Z.add_0_r.
  rewrite Zplus_mod_idemp_r, Z.add_opp_diag_r. reflexivity.
Qed.

(** [C9] Encoding a tuple (count, address, type, payload), with a payload of
    [count] bytes and [count] in 0-255, as the [':'] marker, hex pairs for
    count, big-endian address, type and payload, and the checksum byte that
    makes the byte sum 0 mod 256, and parsing that line, is accepted and
    gives back the count, the address, the type and, in the first [count]
    elements of the record's array, the payload. *)
Theorem encode_parse_roundtrip (count addr type : Z) (payload stack : list Z)
  (record : tRecord) :
  0 <= count <= 255 -> count = Z.of_nat (length payload) ->
  0 <= addr < 65536 -> is_byte type -> bytes_ok payload ->
  length stack = 261%nat -> length (rec_data record) = 256%nat ->
  exists r : tRecord,
    processRecord (encode_record count addr type payload) stack record = (true, r)
    /\ rec_count r = count
    /\ rec_addr r = addr
    /\ rec_type r = type
    /\ take (length payload) (rec_data r) = payload.
Proof.
  intros Hcount Hlen Haddr Htype Hpay Hs Hr.
  destruct (checksum_of_closes (record_fields count addr type payload)) as [Hck Hsum].
  set (ck := checksum_of (record_fields count addr type payload)) in *.
  assert (Hhi : is_byte (addr / 256)).
  { split; [apply Z.div_pos; lia | apply Z.div_lt_upper_bound; lia]. }
  assert (Hlo : is_byte (addr mod 256)) by (apply Z.mod_pos_bound; lia).
  assert (Hbytes : bytes_ok (record_fields count addr type payload ++ [ck])).
  { unfold record_fields, bytes_ok. cbn [app].
    do 4 (apply Forall_cons_2; [first [assumption | unfold is_byte; lia] |]).
    apply Forall_app_2; [exact Hpay |].
    apply Forall_cons_2; [exact Hck | constructor]. }
  pose proof (processRecord_well_formed EmptyString
                (hex_encode (record_fields count addr type payload ++ [ck]))
                EmptyString count (addr / 256) (addr mod 256) type ck
                payload stack record Hs Hr eq_refl
                (hex_decode_encode _ Hbytes) parseHex_empty Hlen) as H.
  rewrite string_app_empty_r in H.
  change (record_fields count addr type payload ++ [ck])
    with (count :: addr / 256 :: addr mod 256 :: type :: payload ++ [ck]) in Hsum.
  rewrite Hsum in H. cbn [Z.eqb] in H.
  eexists. split; [exact H |]. cbn [rec_count rec_addr rec_type rec_data].
  repeat split.
  - pose proof (Z.div_mod addr 256). lia.
  - apply take_app_length.
Qed.

Lemma encode_parse_roundtrip_witness :
  exists r : tRecord,
    processRecord (encode_record 3 0x1234 0 [2; 0x33; 0x7a]) stack0 rec0 = (true, r)
    /\ rec_count r = 3 /\ rec_addr r = 0x1234 /\ rec_type r = 0
    /\ take 3 (rec_data r) = [2; 0x33; 0x7a].
Proof.
  apply (encode_parse_roundtrip 3 0x1234 0 [2; 0x33; 0x7a] stack0 rec0);
    try reflexivity; try lia; unfold is_byte; try lia.
  repeat constructor; unfold is_byte; lia.
Defined.

(** ** Record parser: what is accepted *)

(** [C10] [processRecord] accepts a line exactly when at least one byte was
    decoded and the decoded bytes sum to 0 mod 256, however few they are.
    The line [":00"] decodes to the single byte 0 and is accepted; the
    address and the type of the record returned are read from elements of
    the local array that no decoded byte was stored in (they hold what the
    stack held), and no payload byte is copied. *)
Theorem processRecord_accepts_short_line (stack : list Z) (record : tRecord) :
  (forall line : string,
     fst (processRecord line stack record)
     = (0 <? Z.of_nat (length (record_bytes line)))
       && (u8 (sum (record_bytes line)) =? 0))
  /\ record_bytes ":00" = [0]
  /\ processRecord ":00" stack record =
     (true,
      {| rec_count := 0;
         rec_addr := u16 (Z.lor (rd stack 2) (Z.shiftl (rd stack 1) 8));
         rec_type := rd stack 3;
         rec_data := rec_data record |}).
Proof.
  split; [| split].
  - intros line. rewrite processRecord_decoded. destruct (_ && _); reflexivity.
  - reflexivity.
  - rewrite processRecord_decoded.
    change (record_bytes ":00") with [0]. cbn [length sum].
    change ((0 <? Z.of_nat 1) && (u8 (0 + 0) =? 0)) with true. cbv iota.
    unfold record_of, memcpy. f_equal.
    destruct stack as [| b0 [| b1 [| b2 [| b3 stack]]]]; reflexivity.
Qed.

(** ** Record parser: characters taken as hex digits *)

(** [C3] [hex2nibble] converts the digits and every ASCII letter, not only
    'a'-'f' and 'A'-'F'; on the hex digits proper it gives their values.
    The letter 'g' is converted (to 16), so the pair ["g0"] is taken as the
    byte 0 and the line [":g0"] is accepted as a record. *)
Theorem hex2nibble_takes_every_letter (c : ascii) (value : Z) :
  fst (hex2nibble c value)
  = ((48 <=? code c) && (code c <=? 57)) || ((65 <=? code c) && (code c <=? 90))
    || ((97 <=? code c) && (code c <=? 122))
  /\ (forall n : Z, hex_value c = Some n -> hex2nibble c 0 = (true, n))
  /\ hex_value "g" = None
  /\ hex2nibble "g" 0 = (true, 16)
  /\ parseHex "g0" = (true, 0)
  /\ fst (processRecord ":g0" stack0 rec0) = true.
Proof.
  split; [| split; [| repeat split]].
  - rewrite hex2nibble_nibble_of. unfold nibble_of.
    destruct ((48 <=? code c) && (code c <=? 57)); [reflexivity |].
    destruct ((65 <=? code c) && (code c <=? 90)); [reflexivity |].
    destruct ((97 <=? code c) && (code c <=? 122)); reflexivity.
  - intros n Hn. apply hex_value_nibble_of in Hn as [Hn Hr].
    rewrite hex2nibble_nibble_of, Hn. f_equal.
    change (u8 (Z.shiftl 0 4)) with 0. rewrite Z.lor_0_l. unfold u8.
    apply Z.mod_small. lia.
Qed.

(** ** Image assembler *)

Lemma payload_of_length (r : tRecord) :
  wf_record r -> Z.of_nat (length (payload_of r)) = rec_count r.
Proof.
  intros [Hc Hl]. unfold payload_of. rewrite length_take, Hl. lia.
Qed.

Lemma store_data_memory (st : tState) (r : tRecord) :
  wf_state st -> wf_record r ->
  memory (store_data st r) =
  take (Z.to_nat (st_offset st)) (memory st) ++ payload_of r
  ++ drop (Z.to_nat (st_offset st + rec_count r)) (memory st).
Proof.
  intros (Hd & Ho & Ha) Hr. pose proof (payload_of_length r Hr) as Hp.
  destruct Hr as [Hc Hl].
  unfold memory, store_data. cbn [st_flashbuf st_adjacent hdr_data].
  rewrite take_drop. unfold memcpy. change (Z.to_nat 0) with 0%nat.
  rewrite drop_0. fold (payload_of r).
  rewrite list_inserts_splice by (rewrite length_app; unfold CAPACITY in *; lia).
  do 3 f_equal. lia.
Qed.

Lemma store_data_offset (st : tState) (r : tRecord) :
  wf_state st -> wf_record r ->
  st_offset (store_data st r) = (st_offset st + rec_count r) mod CAPACITY.
Proof.
  intros (Hd & Ho & Ha) [Hc Hl]. unfold store_data. cbn [st_offset].
  unfold u32, CAPACITY in *.
  rewrite (Z.mod_small (st_offset st + rec_count r) (2 ^ 32)) by lia.
  reflexivity.
Qed.

Lemma store_data_wf (st : tState) (r : tRecord) :
  wf_state st -> wf_record r -> wf_state (store_data st r).
Proof.
  intros Hst Hr. pose proof (store_data_offset st r Hst Hr) as Ho'.
  destruct Hst as (Hd & Ho & Ha). destruct Hr as [Hc Hl].
  unfold wf_state. rewrite Ho'. clear Ho'.
  unfold store_data. cbn [st_flashbuf st_adjacent hdr_data].
  unfold memcpy. rewrite length_take, length_drop, length_inserts, length_app.
  unfold CAPACITY in *. repeat split; try lia.
  - apply Z.mod_pos_bound. lia.
  - apply Z.mod_pos_bound. lia.
Qed.

(** A record that ends inside the staging array: its bytes replace those at
    the cursor and nothing behind the array is written. *)
Lemma store_data_inside (st : tState) (r : tRecord) :
  wf_state st -> wf_record r ->
  st_offset st + rec_count r <= CAPACITY ->
  hdr_data (st_flashbuf (store_data st r)) =
    take (Z.to_nat (st_offset st)) (hdr_data (st_flashbuf st)) ++ payload_of r
    ++ drop (Z.to_nat (st_offset st + rec_count r)) (hdr_data (st_flashbuf st))
  /\ st_adjacent (store_data st r) = st_adjacent st.
Proof.
  intros Hst Hr Hin. pose proof (payload_of_length r Hr) as Hp.
  destruct Hst as (Hd & Ho & Ha). destruct Hr as [Hc Hl].
  unfold store_data. cbn [st_flashbuf st_adjacent hdr_data].
  unfold memcpy. change (Z.to_nat 0) with 0%nat. rewrite drop_0.
  fold (payload_of r).
  unfold CAPACITY in *.
  rewrite list_inserts_splice by (rewrite length_app; lia).
  rewrite (take_app_le (hdr_data (st_flashbuf st))) by lia.
  rewrite (drop_app_le (hdr_data (st_flashbuf st))) by lia.
  replace (Z.to_nat (st_offset st) + length (payload_of r))%nat
    with (Z.to_nat (st_offset st + rec_count r)) by lia.
  rewrite !app_assoc.
  assert (Hlen : length (hdr_data (st_flashbuf st))
                 = length ((take (Z.to_nat (st_offset st)) (hdr_data (st_flashbuf st))
                                ++ payload_of r)
                               ++ drop (Z.to_nat (st_offset st + rec_count r))
                                    (hdr_data (st_flashbuf st)))).
  { rewrite !length_app, length_take, length_drop. lia. }
  split; [apply take_app_length', Hlen | apply drop_app_length', Hlen].
Qed.

(** A record that runs past the end of the staging array: the bytes that do
    not fit are stored behind the array, and the bytes in front of the
    cursor, the start of the array among them, are left as they were. *)
Lemma store_data_overrun (st : tState) (r : tRecord) :
  wf_state st -> wf_record r ->
  CAPACITY < st_offset st + rec_count r ->
  (forall i : Z, 0 <= i < st_offset st + rec_count r - CAPACITY ->
     rd (st_adjacent (store_data st r)) i
     = rd (rec_data r) (CAPACITY - st_offset st + i))
  /\ (forall i : Z, 0 <= i < st_offset st ->
        rd (hdr_data (st_flashbuf (store_data st r))) i
        = rd (hdr_data (st_flashbuf st)) i)
  /\ (forall i : Z, st_offset st <= i < CAPACITY ->
        rd (hdr_data (st_flashbuf (store_data st r))) i
        = rd (rec_data r) (i - st_offset st)).
Proof.
  intros Hst Hr Hover. pose proof (payload_of_length r Hr) as Hp.
  destruct Hst as (Hd & Ho & Ha). destruct Hr as [Hc Hl].
  unfold store_data, rd, memcpy. cbn [st_flashbuf st_adjacent hdr_data].
  change (Z.to_nat 0) with 0%nat. rewrite drop_0. fold (payload_of r).
  unfold CAPACITY in *.
  assert (Hpay : forall j : nat, (j < length (payload_of r))%nat ->
                   payload_of r !! j = rec_data r !! j).
  { intros j Hj. unfold payload_of. apply lookup_take_lt.
    unfold payload_of in Hj. rewrite length_take in Hj. lia. }
  split; [| split]; intros i Hi.
  - rewrite lookup_drop, list_lookup_inserts by (rewrite ?length_app; lia).
    rewrite Hpay by lia. do 2 f_equal. lia.
  - rewrite lookup_take_lt, list_lookup_inserts_lt, lookup_app_l by lia.
    reflexivity.
  - rewrite lookup_take_lt, list_lookup_inserts by (rewrite ?length_app; lia).
    rewrite Hpay by lia. do 2 f_equal. lia.
Qed.

Lemma loop_body_accepted (st : tState) (line : string) (stack : list Z)
  (rec r : tRecord) :
  processRecord line stack rec = (true, r) ->
  loop_body st line stack rec = dispatch st r.
Proof. intros H. unfold loop_body. rewrite H. reflexivity. Qed.

Lemma loop_body_rejected (st : tState) (line : string) (stack : list Z)
  (rec : tRecord) :
  fst (processRecord line stack rec) = false ->
  loop_body st line stack rec = Running st.
Proof.
  intros H. unfold loop_body.
  destruct (processRecord line stack rec) as [success r].
  cbn in H. subst success. reflexivity.
Qed.

Lemma memory_count_record (st : tState) : memory (count_record st) = memory st.
Proof. reflexivity. Qed.

Lemma dispatch_data (st : tState) (r : tRecord) :
  rec_type r = TYPE_DATA ->
  dispatch st r = Running (count_record (store_data st r)).
Proof. intros H. unfold dispatch. rewrite H. reflexivity. Qed.

Lemma dispatch_extlin (st : tState) (r : tRecord) :
  rec_type r = TYPE_EXTLIN ->
  dispatch st r = Running (count_record (set_offset st 0)).
Proof. intros H. unfold dispatch. rewrite H. reflexivity. Qed.

Lemma dispatch_ignored (st : tState) (r : tRecord) :
  rec_type r <> TYPE_DATA -> rec_type r <> TYPE_EOF ->
  rec_type r <> TYPE_EXTLIN ->
  dispatch st r = Running (count_record st).
Proof.
  intros H0 H1 H4. unfold dispatch.
  apply Z.eqb_neq in H0, H1, H4. rewrite H0, H1, H4.
  destruct (_ || _); reflexivity.
Qed.

(** An accepted record has a count of one byte and its 256 array elements,
    whatever the line, when the stack array and the caller's record do. *)
Lemma processRecord_wf_record (line : string) (stack : list Z) (rec r : tRecord) :
  length stack = 261%nat -> bytes_ok stack -> length (rec_data rec) = 256%nat ->
  processRecord line stack rec = (true, r) -> wf_record r.
Proof.
  intros Hs Hb Hl H. rewrite processRecord_decoded in H.
  destruct (_ && _); [| discriminate H]. injection H as <-.
  assert (Hdata : bytes_ok (list_inserts 0 (record_bytes line) stack)).
  { apply Forall_inserts; [exact Hb |].
    unfold record_bytes. destruct (_ =? _); [apply decoded_bytes_ok | constructor]. }
  unfold wf_record, record_of. cbn [rec_count rec_data]. split.
  - unfold rd. destruct (_ !! Z.to_nat 0) as [b |] eqn:Hb0; cbn [default from_option id].
    + unfold id. pose proof (Forall_lookup_1 _ _ _ _ Hdata Hb0) as Hbyte.
      unfold is_byte in Hbyte. lia.
    + lia.
  - unfold memcpy. rewrite length_inserts. exact Hl.
Qed.

(** The loop keeps the staging array, the cursor and the memory behind the
    array in their bounds. *)
Lemma loop_body_wf (st st' : tState) (line : string) (stack : list Z)
  (rec : tRecord) :
  wf_state st ->
  length stack = 261%nat -> bytes_ok stack -> length (rec_data rec) = 256%nat ->
  loop_body st line stack rec = Running st' -> wf_state st'.
Proof.
  intros Hst Hs Hb Hl. unfold loop_body.
  destruct (processRecord line stack rec) as [[] r] eqn:Hacc;
    [| intros H; injection H as <-; exact Hst].
  pose proof (processRecord_wf_record line stack rec r Hs Hb Hl Hacc) as Hr.
  unfold dispatch.
  destruct (rec_type r =? TYPE_DATA).
  { intros H. injection H as <-. apply (store_data_wf st r Hst Hr). }
  destruct (rec_type r =? TYPE_EOF).
  { destruct (flashImage _ _) as [[h ev] |]; discriminate. }
  destruct (_ || _); [intros H; injection H as <-; exact Hst |].
  destruct (rec_type r =? TYPE_EXTLIN); intros H; injection H as <-.
  - destruct Hst as (Hd & Ho & Ha). repeat split; try assumption;
      cbn [count_record set_offset st_offset]; unfold CAPACITY; lia.
  - exact Hst.
Qed.

(** The rows of the transition table.  On an accepted record the loop takes
    the transition of the table.
    DATA: the [count] payload bytes are stored at the cursor (they replace
    the bytes at [cursor .. cursor+count-1] counted from the start of the
    staging array, and when the record ends inside the array nothing else
    changes) and the cursor becomes [(cursor + count) mod 65536].
    EXTENDED-LINEAR-ADDRESS: the cursor becomes 0 whatever it was, the
    buffer is unchanged.  EXTENDED-SEGMENT-ADDRESS, START-SEGMENT-ADDRESS,
    START-LINEAR-ADDRESS and every unrecognized tag: cursor and buffer are
    unchanged. *)
Theorem dispatch_follows_transition_table (st : tState) (r : tRecord) :
  wf_state st -> wf_record r ->
  (forall (line : string) (stack : list Z) (rec : tRecord),
     processRecord line stack rec = (true, r) ->
     loop_body st line stack rec = dispatch st r)
  /\ (rec_type r = TYPE_DATA ->
      exists st' : tState,
        dispatch st r = Running st'
        /\ st_offset st' = (st_offset st + rec_count r) mod CAPACITY
        /\ memory st' =
             take (Z.to_nat (st_offset st)) (memory st) ++ payload_of r
             ++ drop (Z.to_nat (st_offset st + rec_count r)) (memory st)
        /\ Z.of_nat (length (hdr_data (st_flashbuf st'))) = CAPACITY
        /\ (st_offset st + rec_count r <= CAPACITY ->
            hdr_data (st_flashbuf st') =
              take (Z.to_nat (st_offset st)) (hdr_data (st_flashbuf st))
              ++ payload_of r
              ++ drop (Z.to_nat (st_offset st + rec_count r))
                   (hdr_data (st_flashbuf st))
            /\ st_adjacent st' = st_adjacent st))
  /\ (rec_type r = TYPE_EXTLIN ->
      exists st' : tState,
        dispatch st r = Running st'
        /\ st_offset st' = 0
        /\ st_flashbuf st' = st_flashbuf st
        /\ st_adjacent st' = st_adjacent st)
  /\ (rec_type r = TYPE_EXTSEG \/ rec_type r = TYPE_STARTSEG
      \/ rec_type r = TYPE_STARTLIN
      \/ (rec_type r < 0 \/ 5 < rec_type r) ->
      exists st' : tState,
        dispatch st r = Running st'
        /\ st_offset st' = st_offset st
        /\ st_flashbuf st' = st_flashbuf st
        /\ st_adjacent st' = st_adjacent st).
Proof.
  intros Hst Hr. split; [| split; [| split]].
  - intros line stack rec H. apply loop_body_accepted, H.
  - intros Ht. exists (count_record (store_data st r)).
    split; [apply dispatch_data, Ht |].
    rewrite memory_count_record.
    cbn [count_record st_offset st_flashbuf st_adjacent].
    destruct (store_data_wf st r Hst Hr) as (Hd' & _ & _).
    split; [exact (store_data_offset st r Hst Hr) |].
    split; [exact (store_data_memory st r Hst Hr) |].
    split; [exact Hd' |].
    exact (store_data_inside st r Hst Hr).
  - intros Ht. exists (count_record (set_offset st 0)).
    split; [apply dispatch_extlin, Ht |].
    split; [reflexivity | split; reflexivity].
  - intros Ht. exists (count_record st).
    split; [| split; [reflexivity | split; reflexivity]].
    apply dispatch_ignored;
      unfold TYPE_DATA, TYPE_EOF, TYPE_EXTLIN, TYPE_EXTSEG, TYPE_STARTSEG,
        TYPE_STARTLIN in *; lia.
Qed.

(** [C8] The DATA row of the table fails for a record that runs past the
    end of the staging array.  Of its [count] payload bytes only those that
    fit between the cursor and the end of the array are stored in the
    staging buffer, which then is what it held in front of the cursor
    followed by those bytes; the other payload bytes are stored in the
    memory behind the array.  The cursor is advanced and wrapped all the
    same. *)
Theorem data_record_is_cut_at_array_end (st : tState) (r : tRecord) :
  wf_state st -> wf_record r -> rec_type r = TYPE_DATA ->
  CAPACITY < st_offset st + rec_count r ->
  exists st' : tState,
    dispatch st r = Running st'
    /\ st_offset st' = st_offset st + rec_count r - CAPACITY
    /\ hdr_data (st_flashbuf st') =
         take (Z.to_nat (st_offset st)) (hdr_data (st_flashbuf st))
         ++ take (Z.to_nat (CAPACITY - st_offset st)) (payload_of r)
    /\ take (Z.to_nat (st_offset st + rec_count r - CAPACITY)) (st_adjacent st')
       = drop (Z.to_nat (CAPACITY - st_offset st)) (payload_of r).
Proof.
  intros Hst Hr Ht Hover.
  exists (count_record (store_data st r)).
  split; [apply dispatch_data, Ht |].
  cbn [count_record st_offset st_flashbuf st_adjacent].
  pose proof (store_data_offset st r Hst Hr) as Ho'.
  pose proof (store_data_memory st r Hst Hr) as Hm.
  destruct (store_data_wf st r Hst Hr) as (Hd' & _ & _).
  pose proof (payload_of_length r Hr) as Hp.
  destruct Hst as (Hd & Ho & Ha). destruct Hr as [Hc Hl].
  unfold memory in Hm. unfold CAPACITY in *.
  set (hdr := hdr_data (st_flashbuf st)) in *.
  set (hdr' := hdr_data (st_flashbuf (store_data st r))) in *.
  set (adj' := st_adjacent (store_data st r)) in *.
  set (p := payload_of r) in *.
  set (o := Z.to_nat (st_offset st)) in *.
  set (k := Z.to_nat (65536 - st_offset st)).
  rewrite (take_app_le hdr) in Hm by lia.
  assert (Hsplit : take o hdr ++ p ++ drop (Z.to_nat (st_offset st + rec_count r))
                                       (hdr ++ st_adjacent st)
                   = (take o hdr ++ take k p)
                     ++ (drop k p ++ drop (Z.to_nat (st_offset st + rec_count r))
                                       (hdr ++ st_adjacent st))).
  { rewrite <- !app_assoc. f_equal. rewrite app_assoc, take_drop. reflexivity. }
  rewrite Hsplit in Hm.
  assert (Hlen : length hdr' = length (take o hdr ++ take k p)).
  { rewrite length_app, !length_take. lia. }
  split.
  { rewrite Ho'. rewrite <- (Z.mod_small (st_offset st + rec_count r - 65536) 65536) by lia.
    replace (st_offset st + rec_count r - 65536)
      with (st_offset st + rec_count r + (-1) * 65536) by lia.
    symmetry. apply Z.mod_add. lia. }
  apply app_inj_1 in Hm as [Hh Ht']; [| exact Hlen].
  split; [exact Hh |].
  rewrite Ht'. apply take_app_length'. rewrite length_drop. lia.
Qed.

(** [C7] A line that [processRecord] rejects changes nothing: the loop goes
    on with the same cursor, the same staging buffer and the same memory
    behind it.  In particular, when a line whose bytes sum to 0 mod 256 has
    its checksum byte raised by one (mod 256), the altered line is rejected
    and the state is left as it was. *)
Theorem rejected_line_keeps_state (st : tState) (stack : list Z) (rec : tRecord) :
  (forall line : string,
     fst (processRecord line stack rec) = false ->
     loop_body st line stack rec = Running st)
  /\ (forall (noise body altered : string) (bs : list Z) (ck : Z),
        is_noise noise = true -> (length bs < 261)%nat ->
        hex_decode body = Some (bs ++ [ck]) ->
        u8 (sum (bs ++ [ck])) = 0 ->
        hex_decode altered = Some (bs ++ [u8 (ck + 1)]) ->
        fst (processRecord (noise +:+ String ":" body) stack rec) = true
        /\ fst (processRecord (noise +:+ String ":" altered) stack rec) = false
        /\ loop_body st (noise +:+ String ":" altered) stack rec = Running st).
Proof.
  split; [intros line H; apply loop_body_rejected, H |].
  intros noise body altered bs ck Hn Hl Hb Hsum Ha.
  assert (Hlen : (length (bs ++ [ck]) <= 261)%nat)
    by (rewrite length_app; cbn [length]; lia).
  assert (Hlen' : (length (bs ++ [u8 (ck + 1)]) <= 261)%nat)
    by (rewrite length_app; cbn [length]; lia).
  assert (Hacc : fst (processRecord (noise +:+ String ":" body) stack rec) = true).
  { rewrite <- (string_app_empty_r body), processRecord_decoded.
    rewrite (record_bytes_well_formed noise body EmptyString _ Hn Hb parseHex_empty Hlen).
    rewrite Hsum, length_app. cbn [length].
    replace (0 <? Z.of_nat (length bs + 1)) with true
      by (symmetry; apply Z.ltb_lt; lia).
    reflexivity. }
  assert (Hrej : fst (processRecord (noise +:+ String ":" altered) stack rec) = false).
  { rewrite <- (string_app_empty_r altered), processRecord_decoded.
    rewrite (record_bytes_well_formed noise altered EmptyString _ Hn Ha parseHex_empty Hlen').
    replace (u8 (sum (bs ++ [u8 (ck + 1)]))) with 1.
    - rewrite andb_false_r. reflexivity.
    - revert Hsum. rewrite !sum_app. cbn [sum]. unfold u8.
      rewrite !Z.add_0_r, Zplus_mod_idemp_r. intros Hsum.
      replace (sum bs + (ck + 1)) with (sum bs + ck + 1) by lia.
      rewrite <- Zplus_mod_idemp_l, Hsum. reflexivity. }
  split; [exact Hacc | split; [exact Hrej |]].
  apply loop_body_rejected, Hrej.
Qed.

(** ** Flash stager *)

Lemma crc32_loop_total (len : nat) :
  forall (data : list Z) (crc : Z),
    (len <= length data)%nat -> exists c : Z, crc32_loop data len crc = Some c.
Proof.
  induction len as [| len IH]; intros data crc Hl; cbn [crc32_loop]; [eauto |].
  destruct data as [| b data]; [cbn in Hl; lia |].
  apply IH. cbn in Hl. lia.
Qed.

(** The erase length is the total length rounded up to a multiple of 4096. *)
Lemma erase_length_rounds_up (x : Z) :
  0 <= x < 2 ^ 32 -> Z.land x 0xfffff000 = 4096 * (x / 4096).
Proof.
  intros Hx.
  change 0xfffff000 with (Z.shiftl (Z.ones 20) 12).
  change 4096 with (2 ^ 12).
  rewrite <- Z.shiftr_div_pow2, Z.mul_comm, <- Z.shiftl_mul_pow2 by lia.
  apply Z.bits_inj'. intros n Hn.
  rewrite Z.land_spec, !Z.shiftl_spec by lia.
  destruct (Z.lt_ge_cases n 12) as [Hlt | Hge].
  - rewrite (Z.testbit_neg_r (Z.ones 20)), (Z.testbit_neg_r (Z.shiftr x 12)) by lia.
    apply andb_false_r.
  - rewrite Z.shiftr_spec by lia. replace (n - 12 + 12) with n by lia.
    destruct (Z.lt_ge_cases n 32) as [Hlt | Hge'].
    + rewrite Z.ones_spec_low by lia. apply andb_true_r.
    + rewrite Z.ones_spec_high by lia. rewrite andb_false_r.
      destruct (Z.eq_dec x 0) as [-> | Hne]; [rewrite Z.bits_0; reflexivity |].
      symmetry. apply Z.bits_above_log2; [lia |].
      apply Z.lt_le_trans with 32; [| exact Hge'].
      apply Z.log2_lt_pow2; lia.
Qed.

Lemma header_bytes_length (h : tFlashHeader) : length (header_bytes h) = 16%nat.
Proof. reflexivity. Qed.

(** [flashImage] on a length inside the staging array: the header it
    leaves in memory and the calls it makes, in order. *)
Lemma flashImage_staged (header : tFlashHeader) (n : Z) :
  0 <= n <= Z.of_nat (length (hdr_data header)) -> n < 2 ^ 32 - 4111 ->
  exists crc : Z,
    crc32 (hdr_data header) n 0xffffffff = Some crc
    /\ flashImage header n =
       Some (mkHeader FLASH_MAGIC1 FLASH_MAGIC2 n crc (hdr_data header),
             [ uart_puts ("Storing new image in flash and then rebooting" +:+ CRLF);
               save_and_disable_interrupts;
               flash_range_erase FLASH_IMAGE_OFFSET (4096 * ((16 + n + 4095) / 4096));
               flash_range_program FLASH_IMAGE_OFFSET
                 (le32 FLASH_MAGIC1 ++ le32 FLASH_MAGIC2 ++ le32 n ++ le32 crc
                  ++ take (Z.to_nat n) (hdr_data header));
               restore_interrupts;
               uart_puts ("Rebooting into flashloader in 1 second" +:+ CRLF);
               watchdog_scratch 0 FLASH_MAGIC1;
               watchdog_scratch 1 (u32 (XIP_BASE + FLASH_IMAGE_OFFSET));
               watchdog_reboot 0 0 1000 ]).
Proof.
  intros Hn Hmax.
  destruct (crc32_loop_total (Z.to_nat n) (hdr_data header) 0xffffffff) as [crc Hcrc];
    [lia |].
  exists crc. split; [exact Hcrc |].
  unfold flashImage. unfold crc32 in Hcrc |- *. rewrite Hcrc.
  unfold sizeof_tFlashHeader, u32.
  rewrite (Z.mod_small (16 + n)) by lia.
  rewrite (Z.mod_small (16 + n + 4095)) by lia.
  rewrite erase_length_rounds_up by lia.
  replace (Z.to_nat (16 + n)) with (16 + Z.to_nat n)%nat by lia.
  rewrite take_app_add' by reflexivity.
  unfold header_bytes. cbn [hdr_magic1 hdr_magic2 hdr_length hdr_crc32 hdr_data].
  rewrite <- !app_assoc. reflexivity.
Qed.

Lemma dispatch_eof (st : tState) (r : tRecord) :
  rec_type r = TYPE_EOF ->
  dispatch st r =
  match flashImage (st_flashbuf st) (st_offset st) with
  | None => Fault
  | Some (header, events) =>
      Halted {| st_offset := st_offset st; st_count := st_count st;
                st_flashbuf := header; st_adjacent := st_adjacent st;
                st_trace := st_trace st ++ events |}
  end.
Proof. intros H. unfold dispatch. rewrite H. reflexivity. Qed.

(** [C5] When a line is accepted as an END-OF-FILE record while the cursor
    is [n], [flashImage] is entered with length [n]: the header it leaves in
    front of the image has the two magic constants, the length [n] and the
    value [crc32] returns for the first [n] image bytes with seed
    0xFFFFFFFF, and the bytes programmed at the image offset are those four
    header words followed by the first [n] image bytes. *)
Theorem eof_record_stages_image (st : tState) (line : string)
  (stack : list Z) (rec r : tRecord) :
  wf_state st ->
  processRecord line stack rec = (true, r) -> rec_type r = TYPE_EOF ->
  exists (crc : Z) (events : list tEvent),
    flashImage (st_flashbuf st) (st_offset st)
      = Some (mkHeader FLASH_MAGIC1 FLASH_MAGIC2 (st_offset st) crc
                (hdr_data (st_flashbuf st)), events)
    /\ crc32 (hdr_data (st_flashbuf st)) (st_offset st) 0xFFFFFFFF = Some crc
    /\ loop_body st line stack rec =
       Halted {| st_offset := st_offset st; st_count := st_count st;
                 st_flashbuf := mkHeader FLASH_MAGIC1 FLASH_MAGIC2 (st_offset st)
                                  crc (hdr_data (st_flashbuf st));
                 st_adjacent := st_adjacent st;
                 st_trace := st_trace st ++ events |}
    /\ In (flash_range_program FLASH_IMAGE_OFFSET
             (le32 FLASH_MAGIC1 ++ le32 FLASH_MAGIC2 ++ le32 (st_offset st)
              ++ le32 crc
              ++ take (Z.to_nat (st_offset st)) (hdr_data (st_flashbuf st))))
          events.
Proof.
  intros (Hd & Ho & Ha) Hacc Ht. unfold CAPACITY in *.
  destruct (flashImage_staged (st_flashbuf st) (st_offset st)) as (crc & Hcrc & Hfi);
    [lia | lia |].
  exists crc. eexists. split; [exact Hfi |]. split; [exact Hcrc |]. split.
  - rewrite (loop_body_accepted st line stack rec r Hacc), (dispatch_eof st r Ht), Hfi.
    reflexivity.
  - cbn [In]. auto.
Qed.

(** [C2] The persistence step triggered by an END-OF-FILE record makes
    these calls, in this order: the interrupts are disabled, the region is
    erased, then one single [flash_range_program] writes the header and the
    first [n] image bytes as one block starting at the image offset, and
    the interrupts are restored.  The header fields were set in memory
    before; the bytes carrying the magic values are the first eight bytes
    of that block, in front of the length, the CRC and the image bytes, and
    no later call writes them. *)
Theorem eof_record_programs_one_block (st : tState) (r : tRecord) :
  wf_state st -> rec_type r = TYPE_EOF ->
  exists (crc : Z) (st' : tState),
    dispatch st r = Halted st'
    /\ hdr_magic1 (st_flashbuf st') = FLASH_MAGIC1
    /\ hdr_magic2 (st_flashbuf st') = FLASH_MAGIC2
    /\ st_trace st' =
       st_trace st ++
       [ uart_puts ("Storing new image in flash and then rebooting" +:+ CRLF);
         save_and_disable_interrupts;
         flash_range_erase FLASH_IMAGE_OFFSET
           (4096 * ((16 + st_offset st + 4095) / 4096));
         flash_range_program FLASH_IMAGE_OFFSET
           ((le32 FLASH_MAGIC1 ++ le32 FLASH_MAGIC2)
            ++ (le32 (st_offset st) ++ le32 crc)
            ++ take (Z.to_nat (st_offset st)) (hdr_data (st_flashbuf st)));
         restore_interrupts;
         uart_puts ("Rebooting into flashloader in 1 second" +:+ CRLF);
         watchdog_scratch 0 FLASH_MAGIC1;
         watchdog_scratch 1 (u32 (XIP_BASE + FLASH_IMAGE_OFFSET));
         watchdog_reboot 0 0 1000 ].
Proof.
  intros (Hd & Ho & Ha) Ht. unfold CAPACITY in *.
  destruct (flashImage_staged (st_flashbuf st) (st_offset st)) as (crc & Hcrc & Hfi);
    [lia | lia |].
  exists crc. eexists. rewrite (dispatch_eof st r Ht), Hfi.
  split; [reflexivity |]. cbn [st_flashbuf st_trace hdr_magic1 hdr_magic2].
  split; [reflexivity |]. split; [reflexivity |].
  rewrite <- !app_assoc. reflexivity.
Qed.

(** ** A transfer longer than the staging array *)

Lemma run_app (inputs1 inputs2 : list (string * list Z * tRecord)) :
  forall st : tState,
    run st (inputs1 ++ inputs2) =
    match run st inputs1 with
    | Running st' => run st' inputs2
    | halted => halted
    end.
Proof.
  induction inputs1 as [| [[line stack] rec] inputs1 IH]; intros st;
    cbn [app run]; [reflexivity |].
  destruct (loop_body st line stack rec); auto.
Qed.

Lemma count_record_wf (st : tState) : wf_state st -> wf_state (count_record st).
Proof. intros H. exact H. Qed.

(** DATA records that stay inside the staging array move the cursor on by
    their count and leave the memory behind the array alone. *)
Lemma run_data_inside (line : string) (stack : list Z) (rec r : tRecord) (k : nat) :
  processRecord line stack rec = (true, r) ->
  rec_type r = TYPE_DATA -> wf_record r ->
  forall st : tState,
    wf_state st ->
    st_offset st + rec_count r * Z.of_nat k < CAPACITY ->
    exists st' : tState,
      run st (replicate k (line, stack, rec)) = Running st'
      /\ wf_state st'
      /\ st_offset st' = st_offset st + rec_count r * Z.of_nat k
      /\ st_adjacent st' = st_adjacent st.
Proof.
  intros Hacc Ht Hr. induction k as [| k IH]; intros st Hst Hk.
  - exists st. cbn [replicate run]. repeat split; try apply Hst. lia.
  - cbn [replicate run].
    rewrite (loop_body_accepted st line stack rec r Hacc), (dispatch_data st r Ht).
    pose proof (store_data_wf st r Hst Hr) as Hwf.
    pose proof (store_data_offset st r Hst Hr) as Hoff.
    assert (Hin : st_offset st + rec_count r <= CAPACITY)
      by (destruct Hr as [Hc _]; nia).
    destruct (store_data_inside st r Hst Hr Hin) as [_ Hadj].
    rewrite Z.mod_small in Hoff
      by (destruct Hst as (_ & Ho & _); destruct Hr as [Hc _]; nia).
    destruct (IH (count_record (store_data st r))) as (st' & Hrun & Hwf' & Ho' & Ha').
    + apply count_record_wf, Hwf.
    + cbn [count_record st_offset]. rewrite Hoff. lia.
    + exists st'. split; [exact Hrun |]. split; [exact Hwf' |].
      cbn [count_record st_offset st_adjacent] in Ho', Ha'.
      rewrite Ho', Ha', Hoff, Hadj. split; [lia | reflexivity].
Qed.

Lemma initial_wf : wf_state (initial flashbuf0 adjacent0).
Proof.
  unfold wf_state, initial, flashbuf0, adjacent0.
  cbn [st_flashbuf st_offset st_adjacent hdr_data].
  rewrite !length_replicate. unfold CAPACITY. lia.
Qed.

Lemma full_input_accepted :
  exists r : tRecord,
    processRecord full_line stack0 rec0 = (true, r)
    /\ rec_type r = TYPE_DATA /\ rec_count r = 255 /\ wf_record r.
Proof.
  eexists. split; [vm_compute; reflexivity |].
  split; [reflexivity |]. split; [reflexivity |].
  split; [cbn [rec_count]; lia | reflexivity].
Qed.

(** [C1] A transfer whose DATA bytes do not fit the 65536 bytes of the
    staging array.  257 DATA lines of 255 bytes bring the cursor to 65535
    with nothing written behind the array.  The next DATA line, of two
    bytes AA BB, is accepted and the cursor wraps to 1; its first byte is
    stored in the last element of the array, and its second byte is stored
    in the first byte of the memory behind the array, which held 0; the
    start of the array is left as it was. *)
Theorem data_record_runs_past_the_array :
  exists st1 st2 : tState,
    readIntelHex flashbuf0 adjacent0 (replicate 257 full_input) = Running st1
    /\ st_offset st1 = 65535
    /\ st_adjacent st1 = adjacent0
    /\ rd (st_adjacent st1) 0 = 0
    /\ fst (processRecord ":02000000AABB99" stack0 rec0) = true
    /\ loop_body st1 ":02000000AABB99" stack0 rec0 = Running st2
    /\ st_offset st2 = 1
    /\ rd (hdr_data (st_flashbuf st2)) 65535 = 0xAA
    /\ rd (st_adjacent st2) 0 = 0xBB
    /\ rd (hdr_data (st_flashbuf st2)) 0 = rd (hdr_data (st_flashbuf st1)) 0.
Proof.
  destruct full_input_accepted as (rF & HaccF & HtF & HcF & HrF).
  destruct (run_data_inside full_line stack0 rec0 rF 257 HaccF HtF HrF
              (initial flashbuf0 adjacent0) initial_wf)
    as (st1 & Hrun & Hwf1 & Ho1 & Ha1).
  { rewrite HcF. unfold CAPACITY. cbn [initial st_offset]. lia. }
  rewrite HcF in Ho1. cbn [initial st_offset st_adjacent] in Ho1, Ha1.
  assert (Ho1' : st_offset st1 = 65535) by lia. clear Ho1.
  set (r2 := mkRecord 2 0 0 (0xAA :: 0xBB :: replicate 254 0)).
  assert (Hacc2 : processRecord ":02000000AABB99" stack0 rec0 = (true, r2))
    by (vm_compute; reflexivity).
  assert (Hr2 : wf_record r2) by (split; [cbn [rec_count r2]; lia | reflexivity]).
  assert (Hover : CAPACITY < st_offset st1 + rec_count r2)
    by (rewrite Ho1'; unfold CAPACITY; cbn [rec_count r2]; lia).
  destruct (store_data_overrun st1 r2 Hwf1 Hr2 Hover) as (Hbehind & Hfront & Hlast).
  exists st1, (count_record (store_data st1 r2)).
  split; [exact Hrun |]. split; [exact Ho1' |]. split; [exact Ha1 |].
  split; [rewrite Ha1; reflexivity |].
  split; [rewrite Hacc2; reflexivity |].
  split.
  { rewrite (loop_body_accepted st1 _ stack0 rec0 r2 Hacc2).
    apply dispatch_data. reflexivity. }
  cbn [count_record st_offset st_flashbuf st_adjacent].
  split.
  { rewrite (store_data_offset st1 r2 Hwf1 Hr2), Ho1'. reflexivity. }
  split.
  { rewrite (Hlast 65535) by (rewrite Ho1'; unfold CAPACITY; lia).
    rewrite Ho1'. reflexivity. }
  split.
  { rewrite (Hbehind 0) by (rewrite Ho1'; unfold CAPACITY; cbn [rec_count r2]; lia).
    rewrite Ho1'. reflexivity. }
  apply Hfront. rewrite Ho1'. lia.
Qed.

(** * Further properties *)

(** ** Checksum engine: ranges, chaining, error detection *)

Lemma crc32_round_range (crc : Z) : 0 <= crc32_round crc < 2 ^ 32.
Proof.
  unfold crc32_round, u32.
  assert (0 <= Z.shiftl crc 1 mod 2 ^ 32 < 2 ^ 32) by (apply Z.mod_pos_bound; lia).
  destruct (negb _); [apply lxor_u32_range; lia | lia].
Qed.

Lemma crc32_bits_range (n : nat) (crc : Z) :
  0 <= crc < 2 ^ 32 -> 0 <= crc32_bits n crc < 2 ^ 32.
Proof.
  revert crc. induction n as [| n IH]; intros crc Hc; [exact Hc |].
  cbn [crc32_bits]. apply IH, crc32_round_range.
Qed.

Lemma crc32_bits_S_range (n : nat) (crc : Z) :
  0 <= crc32_bits (S n) crc < 2 ^ 32.
Proof. cbn [crc32_bits]. apply crc32_bits_range, crc32_round_range. Qed.

Lemma crc32_byte_range (crc b : Z) : 0 <= crc32_byte crc b < 2 ^ 32.
Proof. unfold crc32_byte. apply (crc32_bits_S_range 7). Qed.

Lemma crc32_loop_range (len : nat) :
  forall (data : list Z) (crc c : Z),
    0 <= crc < 2 ^ 32 -> crc32_loop data len crc = Some c -> 0 <= c < 2 ^ 32.
Proof.
  induction len as [| len IH]; intros data crc c Hc H; cbn [crc32_loop] in H.
  - injection H as <-. exact Hc.
  - destruct data as [| b data]; [discriminate H |].
    apply (IH data (crc32_byte crc b) c); [apply crc32_byte_range | exact H].
Qed.

(** [X1] The value [crc32] returns for a 32-bit seed is a 32-bit value,
    whatever the array holds. *)
Theorem crc32_is_32_bit (data : list Z) (len seed c : Z) :
  0 <= seed < 2 ^ 32 -> crc32 data len seed = Some c -> 0 <= c < 2 ^ 32.
Proof. intros Hs H. exact (crc32_loop_range _ _ _ _ Hs H). Qed.

Lemma crc32_loop_chain (n : nat) :
  forall (m : nat) (data : list Z) (crc : Z),
    (n + m <= length data)%nat ->
    exists c : Z,
      crc32_loop data n crc = Some c
      /\ crc32_loop data (n + m) crc = crc32_loop (drop n data) m c.
Proof.
  induction n as [| n IH]; intros m data crc Hl.
  - exists crc. split; reflexivity.
  - destruct data as [| b data]; [cbn in Hl; lia |].
    cbn [Nat.add crc32_loop drop skipn]. apply IH. cbn in Hl. lia.
Qed.

(** [X2] The checksum can be computed in pieces: the checksum of the first
    [n + m] bytes is the checksum of the [m] bytes that follow the first
    [n], seeded with the checksum of the first [n]. *)
Theorem crc32_chains (data : list Z) (n m seed : Z) :
  0 <= n -> 0 <= m -> n + m <= Z.of_nat (length data) ->
  exists c : Z,
    crc32 data n seed = Some c
    /\ crc32 data (n + m) seed = crc32 (drop (Z.to_nat n) data) m c.
Proof.
  intros Hn Hm Hl. unfold crc32.
  replace (Z.to_nat (n + m)) with (Z.to_nat n + Z.to_nat m)%nat by lia.
  apply crc32_loop_chain. lia.
Qed.

Lemma lxor_cancel_r (a b m : Z) : Z.lxor a m = Z.lxor b m -> a = b.
Proof.
  intros H. rewrite <- (Z.lxor_0_r a), <- (Z.lxor_0_r b), <- (Z.lxor_nilpotent m).
  rewrite <- !Z.lxor_assoc, H. reflexivity.
Qed.

Lemma odd_lxor (a b : Z) : Z.odd (Z.lxor a b) = xorb (Z.odd a) (Z.odd b).
Proof. rewrite <- !Z.bit0_odd. apply Z.lxor_spec. Qed.

Lemma double_mod_even (crc : Z) : Z.odd ((2 * crc) mod 2 ^ 32) = false.
Proof.
  change (2 ^ 32) with (2 * 2 ^ 31). rewrite Z.mul_mod_distr_l by lia.
  rewrite Z.odd_mul. reflexivity.
Qed.

(** The polynomial is odd: a round can be undone, the low bit of its result
    telling whether the top bit was set. *)
Lemma crc32_round_injective (a b : Z) :
  0 <= a < 2 ^ 32 -> 0 <= b < 2 ^ 32 ->
  crc32_round a = crc32_round b -> a = b.
Proof.
  intros Ha Hb. rewrite !crc32_round_spec by assumption.
  unfold crc32_spec_round.
  assert (Hhigh : forall x, 2 ^ 31 <= x < 2 ^ 32 -> (2 * x) mod 2 ^ 32 = 2 * x - 2 ^ 32).
  { intros x Hx. symmetry. apply (Z.mod_unique _ _ 1); lia. }
  destruct (Z.leb_spec (2 ^ 31) a) as [Ha' | Ha'],
           (Z.leb_spec (2 ^ 31) b) as [Hb' | Hb']; intros H.
  - apply lxor_cancel_r in H. rewrite !Hhigh in H by lia. lia.
  - apply (f_equal Z.odd) in H. rewrite odd_lxor, !double_mod_even in H.
    discriminate H.
  - apply (f_equal Z.odd) in H. rewrite odd_lxor, !double_mod_even in H.
    discriminate H.
  - rewrite !Z.mod_small in H by lia. lia.
Qed.

Lemma crc32_bits_injective (n : nat) (a b : Z) :
  0 <= a < 2 ^ 32 -> 0 <= b < 2 ^ 32 ->
  crc32_bits n a = crc32_bits n b -> a = b.
Proof.
  revert a b. induction n as [| n IH]; intros a b Ha Hb H; [exact H |].
  cbn [crc32_bits] in H.
  apply crc32_round_injective; [exact Ha | exact Hb |].
  apply IH; [apply crc32_round_range | apply crc32_round_range | exact H].
Qed.

Lemma shifted_byte_range (b : Z) : 0 <= u32 (Z.shiftl b 24) < 2 ^ 32.
Proof. unfold u32. apply Z.mod_pos_bound. lia. Qed.

Lemma crc32_byte_injective_crc (a b byte : Z) :
  0 <= a < 2 ^ 32 -> 0 <= b < 2 ^ 32 ->
  crc32_byte a byte = crc32_byte b byte -> a = b.
Proof.
  intros Ha Hb H. unfold crc32_byte in H.
  pose proof (shifted_byte_range byte) as Hs.
  apply crc32_bits_injective in H; [| apply lxor_u32_range; assumption ..].
  apply lxor_cancel_r in H. exact H.
Qed.

Lemma crc32_byte_injective_byte (crc b1 b2 : Z) :
  0 <= crc < 2 ^ 32 -> is_byte b1 -> is_byte b2 ->
  crc32_byte crc b1 = crc32_byte crc b2 -> b1 = b2.
Proof.
  intros Hc H1 H2 H. unfold is_byte in *. unfold crc32_byte in H.
  pose proof (shifted_byte_range b1). pose proof (shifted_byte_range b2).
  apply crc32_bits_injective in H; [| apply lxor_u32_range; assumption ..].
  rewrite (Z.lxor_comm crc), (Z.lxor_comm crc) in H.
  apply lxor_cancel_r in H. unfold u32 in H.
  rewrite !Z.shiftl_mul_pow2, !Z.mod_small in H by lia. lia.
Qed.

Lemma crc32_loop_injective (len : nat) :
  forall (data : list Z) (a b ra rb : Z),
    0 <= a < 2 ^ 32 -> 0 <= b < 2 ^ 32 ->
    crc32_loop data len a = Some ra -> crc32_loop data len b = Some rb ->
    ra = rb -> a = b.
Proof.
  induction len as [| len IH]; intros data a b ra rb Ha Hb H1 H2 Heq;
    cbn [crc32_loop] in H1, H2.
  - congruence.
  - destruct data as [| byte data]; [discriminate H1 |].
    apply (crc32_byte_injective_crc a b byte Ha Hb).
    apply (IH data _ _ ra rb); auto using crc32_byte_range.
Qed.

(** [X3] A change of one byte is always detected: two arrays that differ
    in exactly one byte, inside the part that is summed, never have the
    same checksum. *)
Theorem crc32_detects_one_changed_byte (front back : list Z) (b1 b2 len seed : Z) :
  0 <= seed < 2 ^ 32 -> is_byte b1 -> is_byte b2 -> b1 <> b2 ->
  Z.of_nat (length front) < len <= Z.of_nat (length (front ++ b1 :: back)) ->
  crc32 (front ++ b1 :: back) len seed <> crc32 (front ++ b2 :: back) len seed.
Proof.
  intros Hs H1 H2 Hne Hlen. rewrite length_app in Hlen. cbn [length] in Hlen.
  unfold crc32.
  replace (Z.to_nat len)
    with (length front + S (Z.to_nat len - S (length front)))%nat by lia.
  set (k := (Z.to_nat len - S (length front))%nat).
  destruct (crc32_loop_chain (length front) (S k) (front ++ b1 :: back) seed)
    as (c1 & Hc1 & ->); [rewrite length_app; cbn [length]; lia |].
  destruct (crc32_loop_chain (length front) (S k) (front ++ b2 :: back) seed)
    as (c2 & Hc2 & ->); [rewrite length_app; cbn [length]; lia |].
  rewrite !drop_app_length. cbn [crc32_loop].
  assert (Hsame : c1 = c2).
  { destruct (crc32_loop_chain (length front) 0 front seed) as (c & Hc & _); [lia |].
    assert (Hpre : forall tail, crc32_loop (front ++ tail) (length front) seed = Some c).
    { clear - Hc. revert seed Hc. induction front as [| x front IH]; intros seed Hc tail.
      - exact Hc.
      - cbn [app length crc32_loop] in *. apply IH, Hc. }
    rewrite Hpre in Hc1, Hc2. congruence. }
  subst c2. pose proof (crc32_loop_range _ _ _ _ Hs Hc1) as Hr.
  destruct (crc32_loop_total k back (crc32_byte c1 b1)) as [r1 Hr1]; [subst k; lia |].
  destruct (crc32_loop_total k back (crc32_byte c1 b2)) as [r2 Hr2]; [subst k; lia |].
  rewrite Hr1, Hr2. intros Heq. injection Heq as Heq.
  apply Hne, (crc32_byte_injective_byte c1 b1 b2 Hr H1 H2).
  apply (crc32_loop_injective k back _ _ r1 r2); auto using crc32_byte_range.
Qed.

(** ** Record parser: letter case, leading text, bounds *)

Lemma nibble_of_upper (c : ascii) : nibble_of (upper c) = nibble_of c.
Proof. destruct c as [[] [] [] [] [] [] [] []]; reflexivity. Qed.

Lemma marker_test_upper (c : ascii) :
  (code (upper c) =? 0) = (code c =? 0)
  /\ (code (upper c) =? code ":") = (code c =? code ":").
Proof. destruct c as [[] [] [] [] [] [] [] []]; split; reflexivity. Qed.

Lemma hex2nibble_upper (c : ascii) (value : Z) :
  hex2nibble (upper c) value = hex2nibble c value.
Proof. rewrite !hex2nibble_nibble_of, nibble_of_upper. reflexivity. Qed.

Lemma peek_upper (s : string) : peek (upper_string s) = upper (peek s).
Proof. destruct s; reflexivity. Qed.

Lemma next_upper (s : string) : next (upper_string s) = upper_string (next s).
Proof. destruct s; reflexivity. Qed.

Lemma parseHex_upper (s : string) : parseHex (upper_string s) = parseHex s.
Proof.
  unfold parseHex. rewrite next_upper, !peek_upper, hex2nibble_upper.
  destruct (hex2nibble (peek s) 0) as [[] v]; [apply hex2nibble_upper | reflexivity].
Qed.

Lemma decoded_upper (room : nat) :
  forall line : string, decoded (upper_string line) room = decoded line room.
Proof.
  induction room as [| room IH]; intros line; cbn [decoded]; [reflexivity |].
  rewrite parseHex_upper. destruct (parseHex line) as [[] value]; [| reflexivity].
  destruct line as [| c1 [| c2 line']]; cbn [upper_string]; [reflexivity .. |].
  rewrite IH. reflexivity.
Qed.

Lemma skip_to_colon_upper (line : string) :
  skip_to_colon (upper_string line) = upper_string (skip_to_colon line).
Proof.
  induction line as [| c line IH]; [reflexivity |].
  cbn [upper_string skip_to_colon].
  destruct (marker_test_upper c) as [-> ->].
  destruct (negb _ && negb _); [exact IH | reflexivity].
Qed.

Lemma record_bytes_upper (line : string) :
  record_bytes (upper_string line) = record_bytes line.
Proof.
  unfold record_bytes.
  rewrite skip_to_colon_upper, peek_upper, next_upper, decoded_upper.
  destruct (marker_test_upper (peek (skip_to_colon line))) as [_ ->].
  reflexivity.
Qed.

(** [X4] The parser does not distinguish letter case: a line and its
    upper-case form are accepted or rejected alike and give the same
    record. *)
Theorem processRecord_ignores_letter_case (line : string) (stack : list Z)
  (record : tRecord) :
  processRecord (upper_string line) stack record = processRecord line stack record.
Proof. rewrite !processRecord_decoded, record_bytes_upper. reflexivity. Qed.

Lemma skip_to_colon_app_noise (noise rest : string) :
  is_noise noise = true ->
  skip_to_colon (noise +:+ rest) = skip_to_colon rest.
Proof.
  induction noise as [| c noise IH]; intros H; [reflexivity |].
  change (String c noise +:+ rest) with (String c (noise +:+ rest)).
  cbn [is_noise] in H. apply andb_prop in H as [Hc Hn].
  cbn [skip_to_colon]. rewrite Hc. apply IH, Hn.
Qed.

(** [X5] Text in front of a line that holds neither the [':'] marker nor a
    NUL is skipped: the line is parsed as if the text were not there. *)
Theorem processRecord_skips_leading_text (noise rest : string)
  (stack : list Z) (record : tRecord) :
  is_noise noise = true ->
  processRecord (noise +:+ rest) stack record = processRecord rest stack record.
Proof.
  intros Hn. rewrite !processRecord_decoded. unfold record_bytes.
  rewrite skip_to_colon_app_noise by exact Hn. reflexivity.
Qed.

Lemma decoded_full (bs : list Z) :
  forall (body tail : string),
    hex_decode body = Some bs -> decoded (body +:+ tail) (length bs) = bs.
Proof.
  induction bs as [| b bs IH]; intros body tail Hd; [reflexivity |].
  destruct body as [| c1 [| c2 body']]; cbn [hex_decode] in Hd; try discriminate Hd.
  destruct (hex_value c1) as [hi |] eqn:H1; [| discriminate Hd].
  destruct (hex_value c2) as [lo |] eqn:H2; [| discriminate Hd].
  destruct (hex_decode body') as [bs' |] eqn:H3; [| discriminate Hd].
  injection Hd as <- <-. cbn [length decoded].
  change (String c1 (String c2 body') +:+ tail)
    with (String c1 (String c2 (body' +:+ tail))).
  destruct (parseHex_pair c1 c2 (body' +:+ tail) hi lo H1 H2) as [-> _].
  f_equal. apply IH, H3.
Qed.

(** [X6] The decode loop never stores more than the 261 bytes its array
    has: no line decodes to more, and once 261 pairs have been decoded the
    rest of the line is not read, whatever it holds. *)
Theorem processRecord_stops_at_array_end (noise body tail : string) (bs : list Z) :
  is_noise noise = true -> hex_decode body = Some bs -> length bs = 261%nat ->
  (forall line : string, (length (record_bytes line) <= 261)%nat)
  /\ record_bytes (noise +:+ String ":" (body +:+ tail)) = bs
  /\ forall (stack : list Z) (record : tRecord),
       processRecord (noise +:+ String ":" (body +:+ tail)) stack record
       = processRecord (String ":" body) stack record.
Proof.
  intros Hn Hd Hl.
  assert (Hbytes : forall nz t, is_noise nz = true ->
                     record_bytes (nz +:+ String ":" (body +:+ t)) = bs).
  { intros nz t Hnz. unfold record_bytes. rewrite skip_to_colon_noise by exact Hnz.
    cbn [peek next]. rewrite Z.eqb_refl.
    change (Z.to_nat sizeof_data) with 261%nat. rewrite <- Hl.
    apply decoded_full, Hd. }
  split; [| split].
  - intros line. unfold record_bytes. destruct (_ =? _); [| cbn; lia].
    apply decoded_length.
  - apply Hbytes, Hn.
  - intros stack record. rewrite !processRecord_decoded, (Hbytes noise tail Hn).
    pose proof (Hbytes EmptyString EmptyString eq_refl) as H0.
    rewrite string_app_empty_r in H0.
    change (EmptyString +:+ String ":" body) with (String ":" body) in H0.
    rewrite H0. reflexivity.
Qed.

Lemma nonzero_difference_mod (b b' : Z) :
  is_byte b -> is_byte b' -> b <> b' -> (b' - b) mod 256 <> 0.
Proof.
  unfold is_byte. intros Hb Hb' Hne H.
  apply Z.mod_divide in H; [| lia]. destruct H as [k Hk]. lia.
Qed.

(** [X7] The line checksum detects every change of a single byte: when the
    bytes of a line sum to 0 mod 256, the line with one of its bytes
    replaced by a different byte is rejected. *)
Theorem processRecord_rejects_one_changed_byte (noise body : string)
  (front back : list Z) (b b' : Z) (stack : list Z) (record : tRecord) :
  is_noise noise = true ->
  u8 (sum (front ++ b :: back)) = 0 ->
  is_byte b -> is_byte b' -> b <> b' ->
  (length (front ++ b' :: back) <= 261)%nat ->
  hex_decode body = Some (front ++ b' :: back) ->
  processRecord (noise +:+ String ":" body) stack record = (false, record).
Proof.
  intros Hn Hsum Hb Hb' Hne Hl Hd.
  rewrite <- (string_app_empty_r body), processRecord_decoded.
  rewrite (record_bytes_well_formed noise body EmptyString _ Hn Hd parseHex_empty Hl).
  assert (Hbad : u8 (sum (front ++ b' :: back)) <> 0).
  { revert Hsum. rewrite !sum_app. cbn [sum]. unfold u8. intros Hsum.
    replace (sum front + (b' + sum back))
      with ((sum front + (b + sum back)) + (b' - b)) by lia.
    rewrite <- Zplus_mod_idemp_l, Hsum. cbn [Z.add].
    apply nonzero_difference_mod; assumption. }
  apply Z.eqb_neq in Hbad. rewrite Hbad, andb_false_r. reflexivity.
Qed.

(** [X8] The payload of an accepted record is copied from the local array
    whether or not the line reached that far: a payload byte the line
    holds is that byte, and a payload byte that lies past the last decoded
    byte is what the stack held at that place. *)
Theorem processRecord_short_payload_from_stack (line : string) (stack : list Z)
  (record r : tRecord) (i : Z) :
  length stack = 261%nat -> length (rec_data record) = 256%nat ->
  processRecord line stack record = (true, r) ->
  0 <= i < rec_count r ->
  0 <= rec_count r <= 255
  /\ rd (rec_data r) i =
     if 4 + i <? Z.of_nat (length (record_bytes line))
     then rd (record_bytes line) (4 + i)
     else rd stack (4 + i).
Proof.
  intros Hs Hr H Hi. rewrite processRecord_decoded in H.
  destruct (0 <? Z.of_nat (length (record_bytes line))) eqn:Hpos;
    [| discriminate H].
  destruct (_ =? 0); [| discriminate H]. cbn [andb] in H. injection H as <-.
  apply Z.ltb_lt in Hpos.
  pose proof (decoded_length (Z.to_nat sizeof_data) (next (skip_to_colon line))) as Hmax.
  assert (Hlen : (length (record_bytes line) <= 261)%nat).
  { unfold record_bytes. destruct (_ =? _); [exact Hmax | cbn; lia]. }
  assert (Hbytes : bytes_ok (record_bytes line)).
  { unfold record_bytes. destruct (_ =? _); [apply decoded_bytes_ok | constructor]. }
  set (bs := record_bytes line) in *.
  set (data := list_inserts 0 bs stack).
  assert (Hdl : length data = 261%nat) by (unfold data; rewrite length_inserts; exact Hs).
  assert (Hcount : 0 <= rd data 0 <= 255).
  { unfold rd, data. change (Z.to_nat 0) with 0%nat.
    rewrite list_lookup_inserts by lia. rewrite Nat.sub_0_r.
    destruct (bs !! 0%nat) as [b0 |] eqn:Hb0.
    - apply (Forall_lookup_1 _ _ _ _ Hbytes) in Hb0. unfold is_byte in Hb0.
      cbn. lia.
    - apply lookup_ge_None in Hb0. lia. }
  unfold record_of in *. cbn [rec_count rec_data] in *. fold data in Hi.
  split; [exact Hcount |].
  unfold rd at 1. unfold memcpy. change (Z.to_nat 0) with 0%nat.
  change (Z.to_nat 4) with 4%nat.
  rewrite list_lookup_inserts
    by (rewrite ?length_take, ?length_drop; lia).
  rewrite Nat.sub_0_r, lookup_take_lt, lookup_drop by lia.
  replace (4 + Z.to_nat i)%nat with (Z.to_nat (4 + i)) by lia.
  unfold data, rd.
  destruct (Z.ltb_spec (4 + i) (Z.of_nat (length bs))) as [Hin | Hout].
  - rewrite list_lookup_inserts by lia. rewrite Nat.sub_0_r. reflexivity.
  - rewrite list_lookup_inserts_ge by lia. reflexivity.
Qed.

(** ** Image assembler: whole transfers *)

(** The record parsed from an encoded line. *)
Lemma processRecord_encode_record (count addr type : Z) (payload stack : list Z)
  (record : tRecord) :
  count = Z.of_nat (length payload) -> (length payload <= 255)%nat ->
  0 <= addr < 65536 -> is_byte type -> bytes_ok payload ->
  length stack = 261%nat -> length (rec_data record) = 256%nat ->
  processRecord (encode_record count addr type payload) stack record =
  (true, mkRecord count addr type
           (payload ++ drop (length payload) (rec_data record))).
Proof.
  intros Hlen Hmax Haddr Htype Hpay Hs Hr.
  destruct (checksum_of_closes (record_fields count addr type payload)) as [Hck Hsum].
  set (ck := checksum_of (record_fields count addr type payload)) in *.
  assert (Hhi : is_byte (addr / 256)).
  { split; [apply Z.div_pos; lia | apply Z.div_lt_upper_bound; lia]. }
  assert (Hlo : is_byte (addr mod 256)) by (apply Z.mod_pos_bound; lia).
  assert (Hbytes : bytes_ok (record_fields count addr type payload ++ [ck])).
  { unfold record_fields, bytes_ok. cbn [app].
    do 4 (apply Forall_cons_2; [first [assumption | unfold is_byte; lia] |]).
    apply Forall_app_2; [exact Hpay |].
    apply Forall_cons_2; [exact Hck | constructor]. }
  pose proof (processRecord_well_formed EmptyString
                (hex_encode (record_fields count addr type payload ++ [ck]))
                EmptyString count (addr / 256) (addr mod 256) type ck
                payload stack record Hs Hr eq_refl
                (hex_decode_encode _ Hbytes) parseHex_empty Hlen) as H.
  rewrite string_app_empty_r in H.
  change (record_fields count addr type payload ++ [ck])
    with (count :: addr / 256 :: addr mod 256 :: type :: payload ++ [ck]) in Hsum.
  rewrite Hsum in H. cbn [Z.eqb] in H.
  replace (256 * (addr / 256) + addr mod 256) with addr in H
    by (pose proof (Z.div_mod addr 256); lia).
  exact H.
Qed.

Lemma dispatch_ignores_address (st : tState) (count a1 a2 type : Z) (data : list Z) :
  dispatch st (mkRecord count a1 type data) = dispatch st (mkRecord count a2 type data).
Proof. reflexivity. Qed.

(** [X9] The address field of a record is never used: two lines that
    differ only in their address (each with its own right checksum) take
    the loop to the same state.  DATA bytes are placed at the cursor, in
    the order of arrival. *)
Theorem loop_body_ignores_address (st : tState) (count addr1 addr2 type : Z)
  (payload stack : list Z) (record : tRecord) :
  count = Z.of_nat (length payload) -> (length payload <= 255)%nat ->
  0 <= addr1 < 65536 -> 0 <= addr2 < 65536 -> is_byte type -> bytes_ok payload ->
  length stack = 261%nat -> length (rec_data record) = 256%nat ->
  loop_body st (encode_record count addr1 type payload) stack record
  = loop_body st (encode_record count addr2 type payload) stack record.
Proof.
  intros Hc Hm Ha1 Ha2 Ht Hp Hs Hr. unfold loop_body.
  rewrite !processRecord_encode_record by assumption.
  apply dispatch_ignores_address.
Qed.

Lemma splice_twice (o : nat) (p q data : list Z) :
  (o + length p <= length data)%nat ->
  take (o + length p) (take o data ++ p ++ drop (o + length p) data) ++ q
  ++ drop (o + length p + length q) (take o data ++ p ++ drop (o + length p) data)
  = take o data ++ (p ++ q) ++ drop (o + length p + length q) data.
Proof.
  intros H.
  assert (Hl : length (take o data ++ p) = (o + length p)%nat)
    by (rewrite length_app, length_take; lia).
  rewrite !(app_assoc (take o data) p).
  rewrite take_app_length' by (symmetry; exact Hl).
  rewrite drop_app_ge by lia. rewrite Hl, drop_drop.
  replace (o + length p + (o + length p + length q - (o + length p)))%nat
    with (o + length p + length q)%nat by lia.
  rewrite <- !app_assoc. reflexivity.
Qed.

Lemma program_calls_app (e1 e2 : list tEvent) :
  program_calls (e1 ++ e2) = program_calls e1 ++ program_calls e2.
Proof.
  induction e1 as [| e e1 IH]; [reflexivity |].
  destruct e; cbn [app program_calls]; rewrite IH; reflexivity.
Qed.

Lemma store_data_program_calls (st : tState) (r : tRecord) :
  program_calls (st_trace (store_data st r)) = program_calls (st_trace st).
Proof.
  unfold store_data. cbn [st_trace]. destruct (_ =? 0); [| reflexivity].
  rewrite program_calls_app. cbn [program_calls]. apply app_nil_r.
Qed.

Lemma inputs_of_app (lines1 lines2 : list string) (junk : nat -> list Z * tRecord) :
  forall k : nat,
    inputs_of (lines1 ++ lines2) junk k
    = inputs_of lines1 junk k ++ inputs_of lines2 junk (k + length lines1).
Proof.
  induction lines1 as [| line lines1 IH]; intros k; cbn [app inputs_of length].
  - rewrite Nat.add_0_r. reflexivity.
  - rewrite IH. do 3 f_equal. lia.
Qed.

Lemma inputs_of_ok (lines : list string) (junk : nat -> list Z * tRecord) :
  junk_ok junk -> forall k : nat, Forall input_ok (inputs_of lines junk k).
Proof.
  intros Hjunk. induction lines as [| line lines IH]; intros k; cbn [inputs_of].
  - constructor.
  - apply Forall_cons_2; [exact (Hjunk k) | apply IH].
Qed.

(** DATA lines whose bytes fit between the cursor and the end of the
    staging array, whatever the stack holds in each turn. *)
Lemma run_data_lines (junk : nat -> list Z * tRecord) (items : list (Z * list Z)) :
  junk_ok junk -> Forall item_ok items ->
  forall (k : nat) (st : tState),
    wf_state st ->
    st_offset st + Z.of_nat (length (image_of items)) <= CAPACITY ->
    exists st' : tState,
      run st (inputs_of (data_lines items) junk k) = Running st'
      /\ wf_state st'
      /\ st_offset st' = (st_offset st + Z.of_nat (length (image_of items))) mod CAPACITY
      /\ hdr_data (st_flashbuf st') =
           take (Z.to_nat (st_offset st)) (hdr_data (st_flashbuf st))
           ++ image_of items
           ++ drop (Z.to_nat (st_offset st) + length (image_of items))
                (hdr_data (st_flashbuf st))
      /\ st_adjacent st' = st_adjacent st
      /\ program_calls (st_trace st') = program_calls (st_trace st).
Proof.
  intros Hjunk Hitems.
  induction Hitems as [| [addr p] items Hit _ IH]; intros k st Hst Hfit.
  - exists st. cbn [data_lines map inputs_of run image_of concat length app].
    destruct Hst as (Hd & Ho & Ha). unfold CAPACITY in *.
    repeat split; try assumption; try (unfold CAPACITY; lia).
    + change (Z.of_nat 0) with 0. rewrite Z.add_0_r, Z.mod_small by lia. reflexivity.
    + rewrite Nat.add_0_r, take_drop. reflexivity.
  - destruct Hit as (Haddr & Hbytes & Hmax). cbn [fst snd] in *.
    destruct (Hjunk k) as (Hs & _ & Hr).
    unfold image_of in *. cbn [map concat snd] in *.
    rewrite length_app in Hfit.
    set (r := mkRecord (Z.of_nat (length p)) addr TYPE_DATA
                (p ++ drop (length p) (rec_data (snd (junk k))))).
    assert (Hacc : processRecord (encode_record (Z.of_nat (length p)) addr TYPE_DATA p)
                     (fst (junk k)) (snd (junk k)) = (true, r)).
    { apply processRecord_encode_record; try assumption; try reflexivity.
      unfold is_byte, TYPE_DATA. lia. }
    assert (Hwr : wf_record r).
    { split; [cbn [rec_count r]; lia |].
      cbn [rec_data r]. rewrite length_app, length_drop. lia. }
    assert (Hpay : payload_of r = p).
    { unfold payload_of. cbn [rec_count rec_data r]. rewrite Nat2Z.id.
      apply take_app_length. }
    pose proof (store_data_wf st r Hst Hwr) as Hwf1.
    pose proof (store_data_offset st r Hst Hwr) as Ho1.
    destruct (store_data_inside st r Hst Hwr) as [Hd1 Ha1];
      [cbn [rec_count r]; lia |].
    pose proof (store_data_program_calls st r) as Hpc1.
    rewrite Hpay in Hd1. cbn [rec_count r] in Ho1, Hd1.
    unfold data_lines. cbn [map inputs_of run fst snd]. fold (data_lines items).
    rewrite (loop_body_accepted st _ _ _ r Hacc), (dispatch_data st r eq_refl).
    destruct Hst as (Hd & Ho & Ha). unfold CAPACITY in *.
    destruct (Z.eq_dec (st_offset st + Z.of_nat (length p)) 65536) as [Hfull | Hless].
    + (* the record ends at the end of the array: the cursor wraps to 0 *)
      assert (Hnil : concat (map snd items) = []) by (apply nil_length_inv; lia).
      rewrite Hfull in Ho1. change (65536 mod 65536) with 0 in Ho1.
      destruct (IH (S k) (count_record (store_data st r)) Hwf1)
        as (st' & Hrun & Hwf' & Ho' & Hd' & Ha' & Hpc').
      { cbn [count_record st_offset]. rewrite Ho1, Hnil. cbn [length]. lia. }
      cbn [count_record st_offset st_flashbuf st_adjacent st_trace] in Ho', Hd', Ha', Hpc'.
      exists st'. split; [exact Hrun |]. split; [exact Hwf' |].
      clear IH. rewrite Hnil in *. cbn [length] in *.
      rewrite Ho1 in Ho', Hd'. change (Z.to_nat 0) with 0%nat in Hd'.
      rewrite take_0, Nat.add_0_r, drop_0 in Hd'. cbn [app] in Hd'.
      rewrite !app_nil_r. rewrite Ho', Hd', Ha', Hpc', Hd1, Ha1, Hpc1.
      repeat split.
      * rewrite Hfull. reflexivity.
      * do 3 f_equal. lia.
    + rewrite Z.mod_small in Ho1 by lia.
      destruct (IH (S k) (count_record (store_data st r)) Hwf1)
        as (st' & Hrun & Hwf' & Ho' & Hd' & Ha' & Hpc').
      { cbn [count_record st_offset]. rewrite Ho1. lia. }
      cbn [count_record st_offset st_flashbuf st_adjacent st_trace] in Ho', Hd', Ha', Hpc'.
      exists st'. split; [exact Hrun |]. split; [exact Hwf' |].
      rewrite Ho', Hd', Ha', Hpc', Ha1, Hpc1, Ho1, Hd1.
      repeat split.
      * rewrite length_app. f_equal. lia.
      * replace (Z.to_nat (st_offset st + Z.of_nat (length p)))
          with (Z.to_nat (st_offset st) + length p)%nat by lia.
        rewrite splice_twice by lia. rewrite length_app.
        do 3 f_equal. lia.
Qed.

(** [X10] DATA lines are assembled in order: when their payloads fit
    between the cursor and the end of the staging array, the lines leave
    the payloads, one after the other, in the array from the cursor on,
    everything else in the array and behind it untouched, and the cursor
    behind the last byte (at 0 when that was the last byte of the array),
    whatever the stack holds in each turn of the loop. *)
Theorem run_assembles_payloads_in_order (junk : nat -> list Z * tRecord)
  (k : nat) (items : list (Z * list Z)) (st : tState) :
  junk_ok junk -> Forall item_ok items -> wf_state st ->
  st_offset st + Z.of_nat (length (image_of items)) <= CAPACITY ->
  exists st' : tState,
    run st (inputs_of (data_lines items) junk k) = Running st'
    /\ st_offset st' = (st_offset st + Z.of_nat (length (image_of items))) mod CAPACITY
    /\ hdr_data (st_flashbuf st') =
         take (Z.to_nat (st_offset st)) (hdr_data (st_flashbuf st))
         ++ image_of items
         ++ drop (Z.to_nat (st_offset st) + length (image_of items))
              (hdr_data (st_flashbuf st))
    /\ st_adjacent st' = st_adjacent st.
Proof.
  intros Hjunk Hitems Hst Hfit.
  destruct (run_data_lines junk items Hjunk Hitems k st Hst Hfit)
    as (st' & Hrun & _ & Ho & Hd & Ha & _).
  exists st'. repeat split; assumption.
Qed.

Lemma crc32_loop_app_le (len : nat) :
  forall (data tail : list Z) (crc : Z),
    (len <= length data)%nat ->
    crc32_loop (data ++ tail) len crc = crc32_loop data len crc.
Proof.
  induction len as [| len IH]; intros data tail crc Hlen; [reflexivity |].
  destruct data as [| b data]; [cbn [length] in Hlen; lia |].
  cbn [app crc32_loop]. apply IH. cbn [length] in Hlen. lia.
Qed.

Lemma image_of_bytes_ok (items : list (Z * list Z)) :
  Forall item_ok items -> bytes_ok (image_of items).
Proof.
  induction 1 as [| [addr p] items (_ & Hp & _) _ IH]; [constructor |].
  unfold image_of. cbn [map concat snd]. apply Forall_app_2; assumption.
Qed.

Lemma EOF_line_accepted (stack : list Z) (rec : tRecord) :
  length stack = 261%nat -> length (rec_data rec) = 256%nat ->
  processRecord EOF_line stack rec = (true, mkRecord 0 0 TYPE_EOF (rec_data rec)).
Proof.
  intros Hs Hr.
  change EOF_line with (encode_record 0 0 TYPE_EOF []).
  rewrite (processRecord_encode_record 0 0 TYPE_EOF [] stack rec);
    try assumption; try reflexivity; try (cbn; lia);
    try (unfold is_byte, TYPE_EOF; lia); try constructor.
Qed.

(** What the loop leaves when it goes on after a line: the bounds hold and
    flash has not been programmed. *)
Lemma loop_body_program_calls (st st' : tState) (line : string) (stack : list Z)
  (rec : tRecord) :
  loop_body st line stack rec = Running st' ->
  program_calls (st_trace st') = program_calls (st_trace st).
Proof.
  unfold loop_body.
  destruct (processRecord line stack rec) as [[] r];
    [| intros H; injection H as <-; reflexivity].
  unfold dispatch.
  destruct (rec_type r =? TYPE_DATA).
  { intros H. injection H as <-. apply store_data_program_calls. }
  destruct (rec_type r =? TYPE_EOF).
  { destruct (flashImage _ _) as [[h ev] |]; discriminate. }
  destruct (_ || _); [intros H; injection H as <-; reflexivity |].
  destruct (rec_type r =? TYPE_EXTLIN); intros H; injection H as <-; reflexivity.
Qed.

Lemma run_running (inputs : list (string * list Z * tRecord)) :
  Forall input_ok inputs ->
  forall st st' : tState,
    wf_state st -> run st inputs = Running st' ->
    wf_state st' /\ program_calls (st_trace st') = program_calls (st_trace st).
Proof.
  induction 1 as [| [[line stack] rec] inputs (Hs & Hb & Hl) _ IH]; intros st st' Hst.
  - cbn [run]. intros H. injection H as <-. split; [exact Hst | reflexivity].
  - cbn [run fst snd] in *.
    destruct (loop_body st line stack rec) as [st1 | st1 |] eqn:Hlb; try discriminate.
    intros Hrun.
    destruct (IH st1 st' (loop_body_wf st st1 line stack rec Hst Hs Hb Hl Hlb) Hrun)
      as (Hwf & Hpc).
    split; [exact Hwf |].
    rewrite Hpc. exact (loop_body_program_calls st st1 line stack rec Hlb).
Qed.

(** A whole transfer: DATA lines that fit the staging array, then the
    END-OF-FILE line, from a state with the cursor at 0.  The image staged
    is the first [n] bytes of the payloads, [n] being the cursor, the number
    of bytes received mod 65536. *)
Lemma transfer_staged_from (junk : nat -> list Z * tRecord) (k : nat)
  (items : list (Z * list Z)) (st : tState) :
  junk_ok junk -> Forall item_ok items ->
  wf_state st -> st_offset st = 0 -> program_calls (st_trace st) = [] ->
  Z.of_nat (length (image_of items)) <= CAPACITY ->
  exists crc : Z,
    crc32 (image_of items) (Z.of_nat (length (image_of items)) mod CAPACITY)
      0xffffffff = Some crc
    /\ is_halted (run st (inputs_of (data_lines items ++ [EOF_line]) junk k)) = true
    /\ program_calls
         (outcome_trace (run st (inputs_of (data_lines items ++ [EOF_line]) junk k)))
       = [(FLASH_IMAGE_OFFSET,
           le32 FLASH_MAGIC1 ++ le32 FLASH_MAGIC2
           ++ le32 (Z.of_nat (length (image_of items)) mod CAPACITY) ++ le32 crc
           ++ take (Z.to_nat (Z.of_nat (length (image_of items)) mod CAPACITY))
                (image_of items))].
Proof.
  intros Hjunk Hitems Hwf0 Hoff Hpc0 Hfit.
  destruct (run_data_lines junk items Hjunk Hitems k st Hwf0)
    as (st1 & Hrun & Hwf1 & Ho1 & Hd1 & _ & Hpc1).
  { rewrite Hoff. lia. }
  rewrite Hoff in Ho1, Hd1. rewrite Hpc0 in Hpc1.
  rewrite Z.add_0_l in Ho1. change (Z.to_nat 0) with 0%nat in Hd1.
  rewrite take_0, Nat.add_0_l in Hd1. cbn [app] in Hd1.
  set (n := Z.of_nat (length (image_of items)) mod CAPACITY) in *.
  assert (Hn : 0 <= n < CAPACITY) by (apply Z.mod_pos_bound; reflexivity).
  assert (Hn' : n <= Z.of_nat (length (image_of items))).
  { unfold n. apply Z.mod_le; [lia | reflexivity]. }
  destruct (flashImage_staged (st_flashbuf st1) n) as (crc & Hcrc & Hfi).
  { destruct Hwf1 as (Hl1 & _). unfold CAPACITY in *. lia. }
  { unfold CAPACITY in *. lia. }
  rewrite Hd1 in Hcrc, Hfi.
  unfold crc32 in Hcrc. rewrite crc32_loop_app_le in Hcrc by lia.
  rewrite take_app_le in Hfi by lia.
  exists crc. split; [exact Hcrc |].
  rewrite inputs_of_app, run_app, Hrun. cbn [inputs_of run].
  destruct (Hjunk (k + length (data_lines items))%nat) as (Hs & _ & Hr).
  rewrite (loop_body_accepted st1 EOF_line _ _ _ (EOF_line_accepted _ _ Hs Hr)).
  rewrite (dispatch_eof st1 (mkRecord 0 0 TYPE_EOF _) eq_refl), Ho1, Hfi.
  cbn [is_halted outcome_trace st_trace]. split; [reflexivity |].
  rewrite program_calls_app, Hpc1. reflexivity.
Qed.

Lemma initial_state_wf (flashbuf : tFlashHeader) (adjacent : list Z) :
  Z.of_nat (length (hdr_data flashbuf)) = CAPACITY ->
  254 <= Z.of_nat (length adjacent) ->
  wf_state (initial flashbuf adjacent).
Proof.
  intros Hd Ha. unfold wf_state, initial. cbn [st_flashbuf st_offset st_adjacent].
  unfold CAPACITY in *. lia.
Qed.

(** The header and the image that a transfer of fewer than 65536 bytes has
    programmed. *)
Lemma transfer_staged_whole (junk : nat -> list Z * tRecord) (k : nat)
  (items : list (Z * list Z)) (st : tState) :
  junk_ok junk -> Forall item_ok items ->
  wf_state st -> st_offset st = 0 -> program_calls (st_trace st) = [] ->
  Z.of_nat (length (image_of items)) < CAPACITY ->
  is_halted (run st (inputs_of (data_lines items ++ [EOF_line]) junk k)) = true
  /\ program_calls
       (outcome_trace (run st (inputs_of (data_lines items ++ [EOF_line]) junk k)))
     = [(FLASH_IMAGE_OFFSET,
         le32 FLASH_MAGIC1 ++ le32 FLASH_MAGIC2
         ++ le32 (Z.of_nat (length (image_of items)))
         ++ le32 (crc32_spec (image_of items) 0xFFFFFFFF)
         ++ image_of items)].
Proof.
  intros Hjunk Hitems Hst Hoff Hpc0 Hfit.
  destruct (transfer_staged_from junk k items st Hjunk Hitems Hst Hoff Hpc0)
    as (crc & Hcrc & Hhalt & Hpc); [lia |].
  rewrite Z.mod_small in Hcrc, Hpc by lia.
  rewrite Nat2Z.id, firstn_all in Hpc.
  destruct (crc32_loop_spec (image_of items) (length (image_of items)) 0xFFFFFFFF)
    as [Hspec _]; [apply image_of_bytes_ok, Hitems | lia | lia |].
  unfold crc32 in Hcrc. rewrite Nat2Z.id, Hspec, firstn_all in Hcrc.
  injection Hcrc as <-. split; [exact Hhalt | exact Hpc].
Qed.

(** [X11] End to end: DATA lines carrying fewer than 65536 bytes in all,
    then the END-OF-FILE line.  The loop stops in [flashImage], and flash
    is programmed by one call, at the image offset, with the two magic
    words, the number of bytes received, the checksum of the received
    bytes (seed 0xFFFFFFFF) and the received bytes themselves, in the
    order they arrived, whatever the stack holds in each turn of the
    loop. *)
Theorem transfer_is_staged_with_its_checksum (junk : nat -> list Z * tRecord)
  (items : list (Z * list Z)) (flashbuf : tFlashHeader) (adjacent : list Z) :
  junk_ok junk -> Forall item_ok items ->
  Z.of_nat (length (hdr_data flashbuf)) = CAPACITY ->
  254 <= Z.of_nat (length adjacent) ->
  Z.of_nat (length (image_of items)) < CAPACITY ->
  is_halted (readIntelHex flashbuf adjacent
               (inputs_of (data_lines items ++ [EOF_line]) junk 0)) = true
  /\ program_calls
       (outcome_trace (readIntelHex flashbuf adjacent
                         (inputs_of (data_lines items ++ [EOF_line]) junk 0)))
     = [(FLASH_IMAGE_OFFSET,
         le32 FLASH_MAGIC1 ++ le32 FLASH_MAGIC2
         ++ le32 (Z.of_nat (length (image_of items)))
         ++ le32 (crc32_spec (image_of items) 0xFFFFFFFF)
         ++ image_of items)].
Proof.
  intros Hjunk Hitems Hd Ha Hfit. unfold readIntelHex.
  apply transfer_staged_whole; try assumption; try reflexivity.
  apply initial_state_wf; assumption.
Qed.

(** [X12] A transfer of exactly 65536 bytes is staged as an empty image:
    the last DATA byte fills the array and wraps the cursor to 0, so the
    END-OF-FILE line has a header programmed with length 0 and the
    checksum of no bytes, the seed 0xFFFFFFFF, and no image byte, whatever
    the stack holds in each turn of the loop. *)
Theorem full_size_transfer_is_staged_empty (junk : nat -> list Z * tRecord)
  (items : list (Z * list Z)) (flashbuf : tFlashHeader) (adjacent : list Z) :
  junk_ok junk -> Forall item_ok items ->
  Z.of_nat (length (hdr_data flashbuf)) = CAPACITY ->
  254 <= Z.of_nat (length adjacent) ->
  Z.of_nat (length (image_of items)) = CAPACITY ->
  is_halted (readIntelHex flashbuf adjacent
               (inputs_of (data_lines items ++ [EOF_line]) junk 0)) = true
  /\ program_calls
       (outcome_trace (readIntelHex flashbuf adjacent
                         (inputs_of (data_lines items ++ [EOF_line]) junk 0)))
     = [(FLASH_IMAGE_OFFSET,
         le32 FLASH_MAGIC1 ++ le32 FLASH_MAGIC2 ++ le32 0 ++ le32 0xFFFFFFFF)].
Proof.
  intros Hjunk Hitems Hd Ha Hfull. unfold readIntelHex.
  destruct (transfer_staged_from junk 0 items (initial flashbuf adjacent)
              Hjunk Hitems (initial_state_wf flashbuf adjacent Hd Ha) eq_refl eq_refl)
    as (crc & Hcrc & Hhalt & Hpc); [lia |].
  rewrite Hfull in Hcrc, Hpc. change (CAPACITY mod CAPACITY) with 0 in Hcrc, Hpc.
  change (Z.to_nat 0) with 0%nat in Hpc. rewrite take_0 in Hpc.
  cbn in Hcrc. injection Hcrc as <-.
  split; [exact Hhalt |]. rewrite Hpc, app_nil_r. reflexivity.
Qed.

(** ** Flash stager: the erased region *)

(** [X13] [flashImage] erases before it programs, both at the image
    offset, which is a multiple of the 4096-byte sector; the length erased
    is a multiple of 4096 and is the least one that holds the header and
    the image, so every byte programmed lies in the region erased. *)
Theorem flashImage_erases_what_it_programs (header : tFlashHeader) (n : Z) :
  0 <= n <= Z.of_nat (length (hdr_data header)) -> n < 2 ^ 32 - 4111 ->
  exists (h : tFlashHeader) (front back : list tEvent) (len : Z) (block : list Z),
    flashImage header n
      = Some (h, front ++ flash_range_erase FLASH_IMAGE_OFFSET len
                    :: flash_range_program FLASH_IMAGE_OFFSET block :: back)
    /\ erase_calls front = [] /\ erase_calls back = []
    /\ program_calls front = [] /\ program_calls back = []
    /\ Z.of_nat (length block) = 16 + n
    /\ 16 + n <= len < 16 + n + 4096
    /\ len mod 4096 = 0
    /\ FLASH_IMAGE_OFFSET mod 4096 = 0.
Proof.
  intros Hn Hmax.
  destruct (flashImage_staged header n Hn Hmax) as (crc & _ & Hfi).
  eexists. exists [uart_puts ("Storing new image in flash and then rebooting" +:+ CRLF);
                   save_and_disable_interrupts].
  do 3 eexists. split; [exact Hfi |].
  repeat split; try reflexivity.
  - rewrite !length_app, length_take. cbn [le32 length]. lia.
  - pose proof (Z.div_mod (16 + n + 4095) 4096 ltac:(lia)).
    pose proof (Z.mod_pos_bound (16 + n + 4095) 4096 ltac:(lia)). lia.
  - pose proof (Z.div_mod (16 + n + 4095) 4096 ltac:(lia)).
    pose proof (Z.mod_pos_bound (16 + n + 4095) 4096 ltac:(lia)). lia.
  - rewrite Z.mul_comm. apply Z.mod_mul. lia.
Qed.

(** ** The loop over several lines *)

(** Once [flashImage] has been entered the loop is over: the lines
    that follow the END-OF-FILE line are not processed, whatever they hold. *)
Lemma run_stops_at_flashImage (st : tState)
  (inputs later : list (string * list Z * tRecord)) :
  is_halted (run st inputs) = true ->
  run st (inputs ++ later) = run st inputs.
Proof.
  intros H. rewrite run_app. destruct (run st inputs); [discriminate H | reflexivity ..].
Qed.

(** ** Reading lines *)

Lemma getLine_line (line : string) :
  forall (room : nat) (line_end : ascii) (rest : list ascii),
    no_line_end line = true -> (String.length line < room)%nat ->
    is_line_end line_end = true ->
    getLine (list_ascii_of_string line ++ line_end :: rest) room = Line line rest.
Proof.
  induction line as [| c line IH]; intros room line_end rest Hno Hlen He.
  - destruct room as [| room]; [cbn in Hlen; lia |].
    cbn [list_ascii_of_string app getLine]. rewrite He. reflexivity.
  - destruct room as [| room]; [cbn in Hlen; lia |].
    cbn [no_line_end] in Hno. apply andb_prop in Hno as [Hc Hno].
    apply negb_true_iff in Hc.
    cbn [list_ascii_of_string app getLine]. rewrite Hc.
    rewrite IH; [reflexivity | exact Hno | cbn in Hlen; lia | exact He].
Qed.

(** [X15] [getLine] returns the characters received in front of the first
    ['\n'] or ['\r'], takes that line end off the input and leaves what
    follows it to be read, when the line has fewer than 1024 characters. *)
Theorem getLine_returns_the_line (line : string) (line_end : ascii)
  (rest : list ascii) :
  no_line_end line = true ->
  Z.of_nat (String.length line) < sizeof_line ->
  is_line_end line_end = true ->
  getLine (list_ascii_of_string line ++ line_end :: rest) (Z.to_nat sizeof_line)
  = Line line rest.
Proof.
  intros Hno Hlen He. apply getLine_line; [exact Hno | | exact He].
  unfold sizeof_line in *. lia.
Qed.

Lemma getLine_no_line_end (front : string) :
  forall room : nat,
    no_line_end front = true ->
    (String.length front < room)%nat ->
    getLine (list_ascii_of_string front) room = Blocked.
Proof.
  induction front as [| c front IH]; intros room Hno Hlen; [reflexivity |].
  destruct room as [| room]; [cbn in Hlen; lia |].
  cbn [no_line_end] in Hno. apply andb_prop in Hno as [Hc Hno].
  apply negb_true_iff in Hc.
  cbn [list_ascii_of_string getLine]. rewrite Hc.
  rewrite IH; [reflexivity | exact Hno | cbn in Hlen; lia].
Qed.

Lemma getLine_overrun (front : string) :
  forall (room : nat) (c : ascii) (rest : list ascii),
    no_line_end front = true -> String.length front = room ->
    getLine (list_ascii_of_string front ++ c :: rest) room = Overrun.
Proof.
  induction front as [| a front IH]; intros room c rest Hno Hlen.
  - cbn in Hlen. subst room. reflexivity.
  - destruct room as [| room]; [discriminate Hlen |].
    cbn [no_line_end] in Hno. apply andb_prop in Hno as [Ha Hno].
    apply negb_true_iff in Ha.
    cbn [list_ascii_of_string app getLine]. rewrite Ha.
    rewrite IH; [reflexivity | exact Hno | cbn in Hlen; lia].
Qed.

(** [X16] [getLine] does not bound the line: when 1024 characters arrive
    without a line end, the next character received, a line end or not,
    is stored past the end of the 1024-byte buffer. *)
Theorem getLine_overruns_long_line (front : string) (c : ascii) (rest : list ascii) :
  no_line_end front = true ->
  Z.of_nat (String.length front) = sizeof_line ->
  getLine (list_ascii_of_string front ++ c :: rest) (Z.to_nat sizeof_line) = Overrun.
Proof.
  intros Hno Hlen. apply getLine_overrun; [exact Hno |].
  unfold sizeof_line in *. lia.
Qed.

Lemma hex_digit_no_line_end (n : Z) :
  0 <= n < 16 -> is_line_end (hex_digit n) = false.
Proof.
  intros Hn.
  assert (Hall : forallb (fun d => negb (is_line_end (hex_digit d)))
                   (map Z.of_nat (seq 0 16)) = true) by (vm_compute; reflexivity).
  rewrite forallb_forall in Hall.
  apply negb_true_iff, (Hall n (nibble_enumerated n Hn)).
Qed.

Lemma hex_encode_line (bs : list Z) :
  bytes_ok bs ->
  no_line_end (hex_encode bs) = true
  /\ String.length (hex_encode bs) = (2 * length bs)%nat.
Proof.
  induction 1 as [| b bs Hb _ [IHn IHl]]; [split; reflexivity |].
  unfold is_byte in Hb. cbn [hex_encode no_line_end String.length length].
  rewrite !hex_digit_no_line_end, IHn, IHl.
  - split; [reflexivity | lia].
  - apply Z.mod_pos_bound. lia.
  - split; [apply Z.div_pos; lia | apply Z.div_lt_upper_bound; lia].
Qed.

(** [X17] Every line of the format fits the line buffer: the line that
    encodes a record of up to 255 payload bytes has at most 521 characters
    and no line end, and [getLine] returns it whole. *)
Theorem getLine_returns_encoded_record (count addr type : Z) (payload : list Z)
  (line_end : ascii) (rest : list ascii) :
  count = Z.of_nat (length payload) -> (length payload <= 255)%nat ->
  0 <= addr < 65536 -> is_byte type -> bytes_ok payload ->
  is_line_end line_end = true ->
  String.length (encode_record count addr type payload)
    = (11 + 2 * length payload)%nat
  /\ getLine (list_ascii_of_string (encode_record count addr type payload)
              ++ line_end :: rest) (Z.to_nat sizeof_line)
     = Line (encode_record count addr type payload) rest.
Proof.
  intros Hc Hmax Haddr Htype Hpay He.
  destruct (checksum_of_closes (record_fields count addr type payload)) as [Hck _].
  assert (Hbytes : bytes_ok (record_fields count addr type payload
                             ++ [checksum_of (record_fields count addr type payload)])).
  { unfold record_fields at 1, bytes_ok. cbn [app].
    apply Forall_cons_2; [unfold is_byte; lia |].
    apply Forall_cons_2;
      [split; [apply Z.div_pos; lia | apply Z.div_lt_upper_bound; lia] |].
    apply Forall_cons_2; [apply Z.mod_pos_bound; lia |].
    apply Forall_cons_2; [exact Htype |].
    apply Forall_app_2; [exact Hpay |].
    apply Forall_cons_2; [exact Hck | constructor]. }
  destruct (hex_encode_line _ Hbytes) as [Hno Hlen].
  assert (Hsize : String.length (encode_record count addr type payload)
                  = (11 + 2 * length payload)%nat).
  { unfold encode_record. cbn [String.length]. rewrite Hlen, length_app.
    unfold record_fields. cbn [length]. lia. }
  split; [exact Hsize |].
  apply getLine_line; [| rewrite Hsize; unfold sizeof_line; lia | exact He].
  unfold encode_record. cbn [no_line_end]. rewrite Hno. reflexivity.
Qed.

(** ** The loop on the characters received *)

Lemma getLine_takes_a_character (input : list ascii) :
  forall (room : nat) (line : string) (rest : list ascii),
    getLine input room = Line line rest -> (length rest < length input)%nat.
Proof.
  induction input as [| c input IH]; intros room line rest H; [discriminate H |].
  destruct room as [| room]; [discriminate H |]. cbn [getLine] in H.
  destruct (is_line_end c).
  - injection H as _ <-. cbn [length]. lia.
  - destruct (getLine input room) as [l r | |] eqn:Hg; try discriminate H.
    injection H as _ <-. specialize (IH _ _ _ Hg). cbn [length]. lia.
Qed.

(** The loop never uses up fuel larger than the number of characters. *)
Lemma uart_loop_fuel (fuel1 : nat) :
  forall (fuel2 : nat) (st : tState) (input : list ascii)
         (junk : nat -> list Z * tRecord) (k : nat),
    (length input < fuel1)%nat -> (length input < fuel2)%nat ->
    uart_loop fuel1 st input junk k = uart_loop fuel2 st input junk k.
Proof.
  induction fuel1 as [| fuel1 IH]; intros fuel2 st input junk k H1 H2; [lia |].
  destruct fuel2 as [| fuel2]; [lia |]. cbn [uart_loop].
  destruct (getLine input (Z.to_nat sizeof_line)) as [line rest | |] eqn:Hg;
    try reflexivity.
  apply getLine_takes_a_character in Hg.
  destruct (loop_body st line (junk k).1 (junk k).2); try reflexivity.
  apply IH; lia.
Qed.

(** On a text of whole lines followed by the beginning of a line, the loop
    does what [run] does on the lines. *)
Lemma uart_loop_lines (lines : list (string * ascii)) :
  forall (front : string) (fuel : nat) (st : tState)
         (junk : nat -> list Z * tRecord) (k : nat),
    Forall line_ok lines ->
    no_line_end front = true ->
    Z.of_nat (String.length front) < sizeof_line ->
    (length (text_of lines ++ list_ascii_of_string front) < fuel)%nat ->
    uart_loop fuel st (text_of lines ++ list_ascii_of_string front) junk k
    = run st (lines_inputs lines junk k).
Proof.
  induction lines as [| [line line_end] lines IH];
    intros front fuel st junk k Hok Hno Hlen Hfuel.
  - destruct fuel as [| fuel]; [lia |].
    cbn [text_of app uart_loop lines_inputs run].
    rewrite getLine_no_line_end; [reflexivity | exact Hno |].
    unfold sizeof_line in *. lia.
  - apply Forall_cons in Hok as [(Hl1 & Hl2 & Hl3) Hok]. cbn [fst snd] in *.
    destruct fuel as [| fuel]; [lia |].
    cbn [text_of lines_inputs run uart_loop]. rewrite <- app_assoc.
    cbn [app]. rewrite getLine_line by (unfold sizeof_line in *; auto; lia).
    destruct (loop_body st line (junk k).1 (junk k).2); try reflexivity.
    apply IH; try assumption.
    cbn [text_of] in Hfuel. rewrite <- app_assoc, length_app in Hfuel.
    cbn [app length] in Hfuel. lia.
Qed.

(** [X18] The loop on the characters of the UART is the loop on the lines
    they make up: for a text of lines, each shorter than 1024 characters
    and ended by ['\n'] or ['\r'], followed by the beginning of a further
    line, [readIntelHex] processes the lines in order and then waits in
    [getLine]; the unfinished line is not processed. *)
Theorem readIntelHex_uart_processes_lines (flashbuf : tFlashHeader)
  (adjacent : list Z) (lines : list (string * ascii)) (front : string)
  (junk : nat -> list Z * tRecord) :
  Forall line_ok lines ->
  no_line_end front = true ->
  Z.of_nat (String.length front) < sizeof_line ->
  readIntelHex_uart flashbuf adjacent
    (text_of lines ++ list_ascii_of_string front) junk
  = readIntelHex flashbuf adjacent (lines_inputs lines junk 0).
Proof.
  intros Hok Hno Hlen. unfold readIntelHex_uart, readIntelHex.
  apply uart_loop_lines; try assumption. lia.
Qed.

Lemma empty_line_rejected (stack : list Z) (rec : tRecord) :
  fst (processRecord EmptyString stack rec) = false.
Proof. reflexivity. Qed.

(** The lines of a text whose lines end in ["\r\n"]: every second line
    that [getLine] returns is empty, and the [i]-th line proper is
    processed in turn [2 * i] of the loop. *)
Lemma run_crlf_lines (lines : list string) (junk junk' : nat -> list Z * tRecord) :
  forall (k m : nat) (st : tState),
    (forall i : nat, junk' (m + i)%nat = junk (k + 2 * i)%nat) ->
    run st (lines_inputs
              (flat_map (fun line => [(line, "013"%char); (EmptyString, "010"%char)])
                 lines) junk k)
    = run st (inputs_of lines junk' m).
Proof.
  induction lines as [| line lines IH]; intros k m st Hjunk; [reflexivity |].
  cbn [flat_map app lines_inputs inputs_of run].
  pose proof (Hjunk 0%nat) as H0. rewrite Nat.add_0_r, Nat.mul_0_r, Nat.add_0_r in H0.
  rewrite H0.
  destruct (loop_body st line (fst (junk k)) (snd (junk k))) as [st' | |];
    try reflexivity.
  rewrite (loop_body_rejected st' EmptyString _ _ (empty_line_rejected _ _)).
  apply IH. intros i. pose proof (Hjunk (S i)) as Hi.
  replace (S m + i)%nat with (m + S i)%nat by lia.
  replace (S (S k) + 2 * i)%nat with (k + 2 * S i)%nat by lia.
  exact Hi.
Qed.

(** [X19] Line ends of two characters do no harm: a text whose lines end
    in ["\r\n"] takes the loop to the same outcome as the lines themselves,
    the empty line that [getLine] returns between ['\r'] and ['\n'] being
    rejected, whatever the stack holds in each turn: the [i]-th line is
    processed in turn [2 * i]. *)
Theorem readIntelHex_uart_accepts_crlf (flashbuf : tFlashHeader)
  (adjacent : list Z) (lines : list string) (junk : nat -> list Z * tRecord) :
  Forall (fun line => no_line_end line = true
                      /\ Z.of_nat (String.length line) < sizeof_line) lines ->
  readIntelHex_uart flashbuf adjacent
    (text_of (flat_map (fun line => [(line, "013"%char); (EmptyString, "010"%char)])
                lines))
    junk
  = readIntelHex flashbuf adjacent (inputs_of lines (fun i => junk (2 * i)%nat) 0).
Proof.
  intros Hok. unfold readIntelHex_uart, readIntelHex.
  set (crlf := flat_map (fun line => [(line, "013"%char); (EmptyString, "010"%char)]) lines).
  rewrite <- (app_nil_r (text_of crlf)).
  change (@nil ascii) with (list_ascii_of_string EmptyString).
  rewrite uart_loop_lines; [| | reflexivity | reflexivity | lia].
  - subst crlf. apply run_crlf_lines. intros i. reflexivity.
  - subst crlf. induction Hok as [| line lines [H1 H2] _ IH]; [constructor |].
    cbn [flat_map app]. repeat apply Forall_cons_2; try exact IH.
    + repeat split; assumption.
    + repeat split; reflexivity.
Qed.

(** ** The line checksum is a plain sum *)

Lemma sum_Permutation (l1 l2 : list Z) : Permutation l1 l2 -> sum l1 = sum l2.
Proof.
  induction 1 as [| x l1 l2 _ IH | x y l | l1 l2 l3 _ IH1 _ IH2]; cbn [sum];
    [reflexivity | rewrite IH; reflexivity | lia | congruence].
Qed.

(** [X20] The line checksum does not see the order of the bytes: two lines
    whose bytes are a rearrangement of each other are accepted or rejected
    alike. *)
Theorem processRecord_checksum_ignores_order (noise body1 body2 : string)
  (bs1 bs2 stack : list Z) (record : tRecord) :
  is_noise noise = true ->
  hex_decode body1 = Some bs1 -> hex_decode body2 = Some bs2 ->
  Permutation bs1 bs2 -> (length bs1 <= 261)%nat ->
  fst (processRecord (noise +:+ String ":" body1) stack record)
  = fst (processRecord (noise +:+ String ":" body2) stack record).
Proof.
  intros Hn H1 H2 Hp Hl.
  pose proof (Permutation_length Hp) as Hlen.
  rewrite <- (string_app_empty_r body1), <- (string_app_empty_r body2).
  rewrite !processRecord_decoded.
  rewrite (record_bytes_well_formed noise body1 EmptyString bs1 Hn H1 parseHex_empty Hl).
  rewrite (record_bytes_well_formed noise body2 EmptyString bs2 Hn H2 parseHex_empty)
    by lia.
  rewrite (sum_Permutation bs1 bs2 Hp), Hlen.
  destruct (_ && _); reflexivity.
Qed.

(** ** The cursor stays inside the staging array *)

Lemma dispatch_eof_wf (st : tState) (r : tRecord) :
  wf_state st -> rec_type r = TYPE_EOF ->
  exists st' : tState, dispatch st r = Halted st' /\ wf_state st'.
Proof.
  intros Hst Ht. pose proof Hst as (Hd & Ho & Ha). unfold CAPACITY in *.
  destruct (flashImage_staged (st_flashbuf st) (st_offset st)) as (crc & _ & Hfi);
    [lia | lia |].
  rewrite (dispatch_eof st r Ht), Hfi. eexists. split; [reflexivity |].
  unfold wf_state, CAPACITY. cbn [st_flashbuf st_offset st_adjacent hdr_data].
  auto.
Qed.

Lemma loop_body_safe (st : tState) (line : string) (stack : list Z) (rec : tRecord) :
  wf_state st -> input_ok (line, stack, rec) ->
  match loop_body st line stack rec with
  | Running st' | Halted st' => wf_state st'
  | Fault => False
  end.
Proof.
  intros Hst (Hs & Hb & Hl). cbn [fst snd] in *.
  destruct (loop_body st line stack rec) as [st' | st' |] eqn:Hlb.
  - exact (loop_body_wf st st' line stack rec Hst Hs Hb Hl Hlb).
  - unfold loop_body in Hlb.
    destruct (processRecord line stack rec) as [[] r]; [| discriminate Hlb].
    unfold dispatch in Hlb.
    destruct (rec_type r =? TYPE_DATA); [discriminate Hlb |].
    destruct (rec_type r =? TYPE_EOF) eqn:Ht.
    + apply Z.eqb_eq in Ht. destruct (dispatch_eof_wf st r Hst Ht) as (st2 & Hd2 & Hwf2).
      rewrite (dispatch_eof st r Ht) in Hd2. rewrite Hd2 in Hlb.
      injection Hlb as <-. exact Hwf2.
    + destruct (_ || _); [discriminate Hlb |].
      destruct (rec_type r =? TYPE_EXTLIN); discriminate Hlb.
  - unfold loop_body in Hlb.
    destruct (processRecord line stack rec) as [[] r]; [| discriminate Hlb].
    unfold dispatch in Hlb.
    destruct (rec_type r =? TYPE_DATA); [discriminate Hlb |].
    destruct (rec_type r =? TYPE_EOF) eqn:Ht.
    + apply Z.eqb_eq in Ht. destruct (dispatch_eof_wf st r Hst Ht) as (st2 & Hd2 & _).
      rewrite (dispatch_eof st r Ht) in Hd2. rewrite Hd2 in Hlb. discriminate Hlb.
    + destruct (_ || _); [discriminate Hlb |].
      destruct (rec_type r =? TYPE_EXTLIN); discriminate Hlb.
Qed.

(** A turn that stays inside its arrays keeps the bounds and writes nothing
    behind the staging array. *)
Lemma loop_body_inside (st : tState) (line : string) (stack : list Z) (rec : tRecord) :
  wf_state st -> input_ok (line, stack, rec) ->
  step_inside st line stack rec = true ->
  match loop_body st line stack rec with
  | Running st' | Halted st' => wf_state st' /\ st_adjacent st' = st_adjacent st
  | Fault => False
  end.
Proof.
  intros Hst (Hs & Hb & Hl) Hin. cbn [fst snd] in *.
  unfold step_inside in Hin. apply andb_true_iff in Hin as [_ Hin].
  unfold loop_body. revert Hin.
  destruct (processRecord line stack rec) as [[] r] eqn:Hacc; intros Hin;
    [| split; [exact Hst | reflexivity]].
  pose proof (processRecord_wf_record line stack rec r Hs Hb Hl Hacc) as Hr.
  cbn [andb] in Hin. unfold dispatch.
  destruct (rec_type r =? TYPE_DATA).
  { cbn [negb orb] in Hin. apply Z.leb_le in Hin.
    destruct (store_data_inside st r Hst Hr Hin) as [_ Ha].
    split; [apply count_record_wf, store_data_wf; assumption | exact Ha]. }
  clear Hin. destruct (rec_type r =? TYPE_EOF).
  { pose proof Hst as (Hd & Ho & Ha). unfold CAPACITY in *.
    destruct (flashImage_staged (st_flashbuf st) (st_offset st)) as (crc & _ & Hfi);
      [lia | lia |].
    rewrite Hfi. split; [| reflexivity].
    unfold wf_state, CAPACITY. cbn [st_flashbuf st_offset st_adjacent hdr_data].
    auto. }
  destruct (_ || _); [split; [exact Hst | reflexivity] |].
  destruct (rec_type r =? TYPE_EXTLIN); [| split; [exact Hst | reflexivity]].
  split; [| reflexivity].
  destruct Hst as (Hd & Ho & Ha). unfold wf_state.
  cbn [count_record set_offset st_offset st_flashbuf st_adjacent].
  unfold CAPACITY in *. lia.
Qed.

(** [X21] As long as every line is one that the line buffer holds and no
    DATA record runs past the end of the staging array, the loop stays
    inside its arrays: the cursor stays below 65536, the array keeps its
    65536 bytes, nothing is written behind it, and the checksum of the
    image is never computed over bytes past the end of the array. *)
Theorem run_keeps_cursor_inside (st : tState)
  (inputs : list (string * list Z * tRecord)) :
  wf_state st -> Forall input_ok inputs -> run_inside st inputs = true ->
  match run st inputs with
  | Running st' | Halted st' =>
      0 <= st_offset st' < CAPACITY
      /\ Z.of_nat (length (hdr_data (st_flashbuf st'))) = CAPACITY
      /\ st_adjacent st' = st_adjacent st
  | Fault => False
  end.
Proof.
  intros Hst Hin. revert st Hst.
  induction Hin as [| [[line stack] rec] inputs Hok _ IH]; intros st Hst Hinside.
  - cbn [run]. destruct Hst as (Hd & Ho & _). auto.
  - cbn [run run_inside] in *. apply andb_true_iff in Hinside as [Hstep Hrest].
    pose proof (loop_body_inside st line stack rec Hst Hok Hstep) as Hsafe.
    destruct (loop_body st line stack rec) as [st' | st' |].
    + destruct Hsafe as [Hwf Ha]. specialize (IH st' Hwf Hrest). rewrite <- Ha.
      exact IH.
    + destruct Hsafe as [(Hd & Ho & _) Ha]. auto.
    + exact Hsafe.
Qed.

(** ** Records in front of and between the DATA lines *)

Lemma run_never_faults (inputs : list (string * list Z * tRecord)) :
  Forall input_ok inputs ->
  forall st : tState, wf_state st -> run st inputs <> Fault.
Proof.
  induction 1 as [| [[line stack] rec] inputs Hok _ IH]; intros st Hst.
  - cbn [run]. discriminate.
  - cbn [run]. pose proof (loop_body_safe st line stack rec Hst Hok) as Hsafe.
    destruct (loop_body st line stack rec) as [st' | st' |].
    + apply IH, Hsafe.
    + discriminate.
    + destruct Hsafe.
Qed.

(** [X22] An EXTENDED-LINEAR-ADDRESS record starts the image afresh, and
    the address bits it carries are not used.  Whatever lines came before
    it (lines that the line buffer holds, no DATA record among them running
    past the end of the staging array, the loop not having entered
    [flashImage]) and whatever the stack holds in each turn, the DATA lines
    that follow it, fewer than 65536 bytes in all, and the END-OF-FILE line
    have flash programmed by one call with the header and exactly the
    bytes received after that record. *)
Theorem extlin_record_restarts_transfer (junk : nat -> list Z * tRecord)
  (before : list string) (addr : Z) (upper_bits : list Z)
  (items : list (Z * list Z)) (flashbuf : tFlashHeader) (adjacent : list Z) :
  junk_ok junk ->
  Z.of_nat (length (hdr_data flashbuf)) = CAPACITY ->
  254 <= Z.of_nat (length adjacent) ->
  run_inside (initial flashbuf adjacent) (inputs_of before junk 0) = true ->
  is_halted (readIntelHex flashbuf adjacent (inputs_of before junk 0)) = false ->
  0 <= addr < 65536 -> bytes_ok upper_bits -> (length upper_bits <= 255)%nat ->
  Forall item_ok items ->
  Z.of_nat (length (image_of items)) < CAPACITY ->
  is_halted
    (readIntelHex flashbuf adjacent
       (inputs_of
          (before
           ++ encode_record (Z.of_nat (length upper_bits)) addr TYPE_EXTLIN upper_bits
           :: data_lines items ++ [EOF_line]) junk 0)) = true
  /\ program_calls
       (outcome_trace
          (readIntelHex flashbuf adjacent
             (inputs_of
                (before
                 ++ encode_record (Z.of_nat (length upper_bits)) addr TYPE_EXTLIN
                      upper_bits
                 :: data_lines items ++ [EOF_line]) junk 0)))
     = [(FLASH_IMAGE_OFFSET,
         le32 FLASH_MAGIC1 ++ le32 FLASH_MAGIC2
         ++ le32 (Z.of_nat (length (image_of items)))
         ++ le32 (crc32_spec (image_of items) 0xFFFFFFFF)
         ++ image_of items)].
Proof.
  intros Hjunk Hd Ha _ Hrunning Haddr Hup Hlen Hitems Hfit.
  pose proof (initial_state_wf flashbuf adjacent Hd Ha) as Hwf0.
  pose proof (inputs_of_ok before junk Hjunk 0) as Hbefore.
  unfold readIntelHex in *. rewrite inputs_of_app, run_app.
  pose proof (run_never_faults _ Hbefore _ Hwf0) as Hnf.
  destruct (run (initial flashbuf adjacent) (inputs_of before junk 0))
    as [st1 | st1 |] eqn:Hrun; [| discriminate Hrunning | contradiction].
  destruct (run_running _ Hbefore _ st1 Hwf0 Hrun) as (Hwf1 & Hpc1).
  cbn [initial st_trace program_calls] in Hpc1.
  cbn [inputs_of run].
  destruct (Hjunk (0 + length before)%nat) as (Hs & _ & Hr).
  rewrite (loop_body_accepted st1 _ _ _ _
             (processRecord_encode_record _ addr TYPE_EXTLIN upper_bits _ _
                eq_refl Hlen Haddr ltac:(unfold is_byte, TYPE_EXTLIN; lia) Hup Hs Hr)).
  rewrite (dispatch_extlin st1 (mkRecord _ addr TYPE_EXTLIN _) eq_refl).
  apply transfer_staged_whole; try assumption; try reflexivity.
  destruct Hwf1 as (H1 & H2 & H3). unfold wf_state.
  cbn [count_record set_offset st_flashbuf st_offset st_adjacent].
  unfold CAPACITY in *. lia.
Qed.


(** ** A line more or less in a transfer *)

(** Of the record's array only the first [count] bytes are copied, so a
    record line is stored the same whatever the stack held. *)
Lemma dispatch_payload_only (st : tState) (count addr type : Z)
  (payload tail1 tail2 : list Z) :
  count = Z.of_nat (length payload) ->
  dispatch st (mkRecord count addr type (payload ++ tail1))
  = dispatch st (mkRecord count addr type (payload ++ tail2)).
Proof.
  intros ->. unfold dispatch. cbn [rec_type].
  destruct (type =? TYPE_DATA); [| reflexivity].
  do 2 f_equal. unfold store_data, memcpy. cbn [rec_data rec_count].
  change (Z.to_nat 0) with 0%nat. rewrite !drop_0, Nat2Z.id, !take_app_length.
  reflexivity.
Qed.

Lemma record_line_accepted (r : Z * Z * list Z) (stack : list Z) (rec : tRecord) :
  record_ok r -> length stack = 261%nat -> length (rec_data rec) = 256%nat ->
  processRecord (record_line r) stack rec
  = (true, mkRecord (Z.of_nat (length (snd r))) (snd (fst r)) (fst (fst r))
             (snd r ++ drop (length (snd r)) (rec_data rec))).
Proof.
  intros (Ht & Ha & Hp & Hm) Hs Hr. unfold record_line.
  apply processRecord_encode_record; try assumption. reflexivity.
Qed.

Lemma loop_body_record_line (st : tState) (r : Z * Z * list Z) (stack : list Z)
  (rec : tRecord) :
  record_ok r -> length stack = 261%nat -> length (rec_data rec) = 256%nat ->
  loop_body st (record_line r) stack rec
  = dispatch st (mkRecord (Z.of_nat (length (snd r))) (snd (fst r)) (fst (fst r))
                   (snd r ++ [])).
Proof.
  intros Hok Hs Hr.
  rewrite (loop_body_accepted st _ stack rec _ (record_line_accepted r stack rec Hok Hs Hr)).
  apply dispatch_payload_only. reflexivity.
Qed.

Lemma record_line_length (r : Z * Z * list Z) :
  record_ok r -> String.length (record_line r) = (11 + 2 * length (snd r))%nat.
Proof.
  intros (Ht & Ha & Hp & Hm). unfold record_line.
  destruct (checksum_of_closes
              (record_fields (Z.of_nat (length (snd r))) (snd (fst r)) (fst (fst r))
                 (snd r))) as [Hck _].
  set (fields := record_fields _ _ _ _) in *.
  assert (Hbytes : bytes_ok (fields ++ [checksum_of fields])).
  { unfold fields, record_fields at 1, bytes_ok. cbn [app].
    apply Forall_cons_2; [unfold is_byte; lia |].
    apply Forall_cons_2;
      [split; [apply Z.div_pos; lia | apply Z.div_lt_upper_bound; lia] |].
    apply Forall_cons_2; [apply Z.mod_pos_bound; lia |].
    apply Forall_cons_2; [exact Ht |].
    apply Forall_app_2; [exact Hp |].
    apply Forall_cons_2; [exact Hck | constructor]. }
  destruct (hex_encode_line _ Hbytes) as [_ Hlen].
  unfold encode_record. fold fields. cbn [String.length]. rewrite Hlen, length_app.
  unfold fields, record_fields. cbn [length]. lia.
Qed.

Lemma step_inside_record_line (st : tState) (r : Z * Z * list Z) (stack : list Z)
  (rec : tRecord) :
  record_ok r -> length stack = 261%nat -> length (rec_data rec) = 256%nat ->
  step_inside st (record_line r) stack rec
  = negb (fst (fst r) =? TYPE_DATA)
    || (st_offset st + Z.of_nat (length (snd r)) <=? CAPACITY).
Proof.
  intros Hok Hs Hr. unfold step_inside.
  rewrite (record_line_accepted r stack rec Hok Hs Hr), (record_line_length r Hok).
  destruct Hok as (_ & _ & _ & Hm). cbn [rec_type rec_count andb].
  replace (Z.of_nat (11 + 2 * length (snd r)) <? sizeof_line) with true
    by (symmetry; apply Z.ltb_lt; unfold sizeof_line; lia).
  reflexivity.
Qed.

(** Record lines take the loop through the same states whatever the stack
    holds in each turn. *)
Lemma run_record_lines (records : list (Z * Z * list Z))
  (junk1 junk2 : nat -> list Z * tRecord) :
  junk_ok junk1 -> junk_ok junk2 -> Forall record_ok records ->
  forall (k1 k2 : nat) (st : tState),
    run st (inputs_of (map record_line records) junk1 k1)
    = run st (inputs_of (map record_line records) junk2 k2)
    /\ run_inside st (inputs_of (map record_line records) junk1 k1)
       = run_inside st (inputs_of (map record_line records) junk2 k2).
Proof.
  intros H1 H2 Hrec. induction Hrec as [| r records Hr _ IH]; intros k1 k2 st;
    [split; reflexivity |].
  cbn [map inputs_of run run_inside].
  destruct (H1 k1) as (Hs1 & _ & Hr1). destruct (H2 k2) as (Hs2 & _ & Hr2).
  rewrite (loop_body_record_line st r _ _ Hr Hs1 Hr1),
          (loop_body_record_line st r _ _ Hr Hs2 Hr2),
          (step_inside_record_line st r _ _ Hr Hs1 Hr1),
          (step_inside_record_line st r _ _ Hr Hs2 Hr2).
  destruct (dispatch st _) as [st' | st' |]; [| split; reflexivity ..].
  destruct (IH (S k1) (S k2) st') as [IHrun IHin].
  split; [exact IHrun | rewrite IHin; reflexivity].
Qed.

Lemma run_inside_app (inputs1 inputs2 : list (string * list Z * tRecord)) :
  forall st : tState,
    run_inside st (inputs1 ++ inputs2)
    = run_inside st inputs1
      && match run st inputs1 with
         | Running st' => run_inside st' inputs2
         | _ => true
         end.
Proof.
  induction inputs1 as [| [[line stack] rec] inputs1 IH]; intros st;
    cbn [app run run_inside]; [reflexivity |].
  destruct (loop_body st line stack rec) as [st' | st' |].
  - rewrite IH, andb_assoc. reflexivity.
  - rewrite !andb_true_r. reflexivity.
  - rewrite !andb_true_r. reflexivity.
Qed.

(** [X14] A rejected line has no effect on a transfer of record lines,
    wherever it stands and whatever it leaves on the stack.  For record
    lines of any types of which no DATA record runs past the end of the
    staging array, and a rejected line that the line buffer holds, the run
    with the line stays inside its arrays as well and ends in the same
    outcome as the run without it, whatever the stack holds in each turn
    of either run. *)
Theorem run_skips_rejected_line (st : tState) (line : string)
  (before after : list (Z * Z * list Z)) (junk1 junk2 : nat -> list Z * tRecord) :
  junk_ok junk1 -> junk_ok junk2 ->
  Forall record_ok before -> Forall record_ok after ->
  Z.of_nat (String.length line) < sizeof_line ->
  fst (processRecord line (fst (junk1 (length before))) (snd (junk1 (length before))))
    = false ->
  run_inside st (inputs_of (map record_line (before ++ after)) junk2 0) = true ->
  run_inside st
    (inputs_of (map record_line before ++ line :: map record_line after) junk1 0)
    = true
  /\ run st (inputs_of (map record_line before ++ line :: map record_line after) junk1 0)
     = run st (inputs_of (map record_line (before ++ after)) junk2 0).
Proof.
  intros H1 H2 Hb Ha Hlen Hrej Hin.
  rewrite map_app, inputs_of_app, run_inside_app in Hin.
  rewrite map_app, !inputs_of_app, !run_app, run_inside_app.
  rewrite length_map, Nat.add_0_l in *.
  destruct (run_record_lines before junk1 junk2 H1 H2 Hb 0%nat 0%nat st) as [Er Ei].
  rewrite Er, Ei. apply andb_true_iff in Hin as [Hin1 Hin2]. rewrite Hin1.
  destruct (run st (inputs_of (map record_line before) junk2 0)) as [st1 | st1 |];
    [| split; reflexivity ..].
  cbn [inputs_of run run_inside andb].
  rewrite (loop_body_rejected st1 line _ _ Hrej).
  destruct (run_record_lines after junk1 junk2 H1 H2 Ha (S (length before))
              (length before) st1) as [Er' Ei'].
  rewrite Er', Ei', Hin2, andb_true_r. split; [| reflexivity].
  unfold step_inside.
  destruct (processRecord line _ _) as [success r]. cbn [fst] in Hrej. subst success.
  cbn [andb negb orb]. rewrite andb_true_r. apply Z.ltb_lt, Hlen.
Qed.

(** [count] is written and never read: two states that differ in it only
    are taken to outcomes that differ in it only. *)
Lemma loop_body_forget_count (st1 st2 : tState) (line : string) (stack : list Z)
  (rec : tRecord) :
  set_count st1 0 = set_count st2 0 ->
  forget_count (loop_body st1 line stack rec)
  = forget_count (loop_body st2 line stack rec)
  /\ step_inside st1 line stack rec = step_inside st2 line stack rec.
Proof.
  destruct st1 as [o1 c1 f1 a1 t1], st2 as [o2 c2 f2 a2 t2].
  unfold set_count. cbn [st_offset st_flashbuf st_adjacent st_trace].
  intros H. injection H as -> -> -> ->. split; [| reflexivity].
  unfold loop_body. destruct (processRecord line stack rec) as [[] r]; [| reflexivity].
  unfold dispatch.
  destruct (rec_type r =? TYPE_DATA); [reflexivity |].
  destruct (rec_type r =? TYPE_EOF).
  { cbn [st_flashbuf st_offset]. destruct (flashImage f2 o2) as [[h ev] |]; reflexivity. }
  destruct (_ || _); [reflexivity |].
  destruct (rec_type r =? TYPE_EXTLIN); reflexivity.
Qed.

Lemma run_forget_count (inputs : list (string * list Z * tRecord)) :
  forall st1 st2 : tState,
    set_count st1 0 = set_count st2 0 ->
    forget_count (run st1 inputs) = forget_count (run st2 inputs)
    /\ run_inside st1 inputs = run_inside st2 inputs.
Proof.
  induction inputs as [| [[line stack] rec] inputs IH]; intros st1 st2 H.
  - cbn [run run_inside forget_count]. rewrite H. split; reflexivity.
  - cbn [run run_inside].
    destruct (loop_body_forget_count st1 st2 line stack rec H) as [Hlb Hstep].
    rewrite Hstep.
    destruct (loop_body st1 line stack rec) as [s1 | s1 |],
             (loop_body st2 line stack rec) as [s2 | s2 |];
      cbn [forget_count] in Hlb; try discriminate Hlb.
    + assert (Hs : set_count s1 0 = set_count s2 0) by congruence.
      destruct (IH s1 s2 Hs) as [IHrun IHin]. rewrite IHin. split; [exact IHrun | reflexivity].
    + split; [exact Hlb | reflexivity].
    + split; reflexivity.
Qed.

(** [X23] A record of a type that is neither DATA, END-OF-FILE nor
    EXTENDED-LINEAR-ADDRESS has no effect on a transfer of record lines,
    wherever it stands.  For record lines of which no DATA record runs past
    the end of the staging array, the run with the record stays inside its
    arrays as well and ends in the same outcome as the run without it, the
    count of records apart, which nothing reads, whatever the stack holds
    in each turn of either run. *)
Theorem run_skips_other_record_types (st : tState) (r : Z * Z * list Z)
  (before after : list (Z * Z * list Z)) (junk1 junk2 : nat -> list Z * tRecord) :
  junk_ok junk1 -> junk_ok junk2 ->
  Forall record_ok before -> Forall record_ok after -> record_ok r ->
  fst (fst r) <> TYPE_DATA -> fst (fst r) <> TYPE_EOF -> fst (fst r) <> TYPE_EXTLIN ->
  run_inside st (inputs_of (map record_line (before ++ after)) junk2 0) = true ->
  run_inside st (inputs_of (map record_line (before ++ r :: after)) junk1 0) = true
  /\ forget_count (run st (inputs_of (map record_line (before ++ r :: after)) junk1 0))
     = forget_count (run st (inputs_of (map record_line (before ++ after)) junk2 0)).
Proof.
  intros H1 H2 Hb Ha Hr Ht0 Ht1 Ht4 Hin.
  rewrite map_app, inputs_of_app, run_inside_app in Hin.
  rewrite !map_app, !inputs_of_app, !run_app, run_inside_app.
  rewrite length_map, Nat.add_0_l in *.
  destruct (run_record_lines before junk1 junk2 H1 H2 Hb 0%nat 0%nat st) as [Er Ei].
  rewrite Er, Ei. apply andb_true_iff in Hin as [Hin1 Hin2]. rewrite Hin1.
  destruct (run st (inputs_of (map record_line before) junk2 0)) as [st1 | st1 |];
    [| split; reflexivity ..].
  cbn [map inputs_of run run_inside andb].
  destruct (H1 (length before)) as (Hs & _ & Hl).
  rewrite (loop_body_record_line st1 r _ _ Hr Hs Hl),
          (step_inside_record_line st1 r _ _ Hr Hs Hl).
  rewrite (dispatch_ignored st1 (mkRecord _ _ (fst (fst r)) _) Ht0 Ht1 Ht4).
  apply Z.eqb_neq in Ht0. rewrite Ht0. cbn [negb orb andb].
  destruct (run_record_lines after junk1 junk2 H1 H2 Ha (S (length before))
              (length before) (count_record st1)) as [Er' Ei'].
  rewrite Er', Ei'.
  destruct (run_forget_count (inputs_of (map record_line after) junk2 (length before))
              (count_record st1) st1 eq_refl) as [Ec Eci].
  rewrite Eci, Hin2. split; [reflexivity | exact Ec].
Qed.

End App.

(** * Concrete runs *)

Lemma sample_state_wf : wf_state sample_state.
Proof.
  unfold wf_state, sample_state, adjacent0.
  cbn [st_flashbuf st_offset st_adjacent hdr_data].
  rewrite length_app, !length_replicate. unfold CAPACITY. cbn [length]. lia.
Qed.

Lemma hex2nibble_takes_every_letter_witness :
  hex2nibble "a" 0 = (true, 10).
Proof.
  apply (proj1 (proj2 (hex2nibble_takes_every_letter "a" 0)) 10). reflexivity.
Defined.

Lemma dispatch_follows_transition_table_witness :
  exists st' : tState,
    dispatch MAGIC1_sample MAGIC2_sample XIP_BASE_sample sample_state sample_record
      = Running st'
    /\ st_offset st' = (st_offset sample_state + rec_count sample_record) mod CAPACITY.
Proof.
  assert (Hr : wf_record sample_record) by (split; [cbn; lia | reflexivity]).
  destruct (proj1 (proj2 (dispatch_follows_transition_table
                            MAGIC1_sample MAGIC2_sample XIP_BASE_sample
                            sample_state sample_record sample_state_wf Hr))
              eq_refl) as (st' & Hd & Ho & _).
  exists st'. split; [exact Hd | exact Ho].
Defined.

Lemma end_state_wf : wf_state end_state.
Proof.
  unfold wf_state, end_state, adjacent0.
  cbn [st_flashbuf st_offset st_adjacent hdr_data].
  rewrite length_app, !length_replicate. unfold CAPACITY. cbn [length]. lia.
Qed.

Lemma data_record_is_cut_at_array_end_witness :
  exists st' : tState,
    dispatch MAGIC1_sample MAGIC2_sample XIP_BASE_sample end_state two_byte_record
      = Running st'
    /\ st_offset st' = 1
    /\ rd (hdr_data (st_flashbuf st')) 0 = 0x55
    /\ take 1 (st_adjacent st') = [0xBB].
Proof.
  assert (Hr : wf_record two_byte_record) by (split; [cbn; lia | reflexivity]).
  destruct (data_record_is_cut_at_array_end MAGIC1_sample MAGIC2_sample
              XIP_BASE_sample end_state two_byte_record end_state_wf Hr eq_refl)
    as (st' & Hd & Ho & Hh & Ha).
  { unfold CAPACITY. cbn [end_state st_offset two_byte_record rec_count]. lia. }
  exists st'. split; [exact Hd |]. split; [exact Ho |].
  split; [| exact Ha].
  rewrite Hh. reflexivity.
Defined.

Lemma rejected_line_keeps_state_witness :
  loop_body MAGIC1_sample MAGIC2_sample XIP_BASE_sample sample_state
    "no record here" stack0 rec0 = Running sample_state
  /\ loop_body MAGIC1_sample MAGIC2_sample XIP_BASE_sample sample_state
       ":0300300002337A1F" stack0 rec0 = Running sample_state.
Proof.
  pose proof (rejected_line_keeps_state MAGIC1_sample MAGIC2_sample
                XIP_BASE_sample sample_state stack0 rec0) as [Hrej Halt].
  split.
  - apply Hrej. reflexivity.
  - apply (Halt EmptyString "0300300002337A1E" "0300300002337A1F"
             [3; 0; 0x30; 0; 2; 0x33; 0x7A] 0x1E); try reflexivity.
    cbn [length]. lia.
Defined.

Lemma eof_record_stages_image_witness :
  exists (crc : Z) (events : list tEvent),
    flashImage MAGIC1_sample MAGIC2_sample XIP_BASE_sample
      (st_flashbuf sample_state) (st_offset sample_state)
      = Some (mkHeader MAGIC1_sample MAGIC2_sample (st_offset sample_state) crc
                (hdr_data (st_flashbuf sample_state)), events)
    /\ crc32 (hdr_data (st_flashbuf sample_state)) (st_offset sample_state)
         0xFFFFFFFF = Some crc.
Proof.
  destruct (eof_record_stages_image MAGIC1_sample MAGIC2_sample XIP_BASE_sample
              sample_state ":00000001FF" stack0 rec0
              (mkRecord 0 0 1 (rec_data rec0)) sample_state_wf)
    as (crc & events & Hfi & Hcrc & _); [reflexivity | reflexivity |].
  exists crc, events. split; [exact Hfi | exact Hcrc].
Defined.

Lemma eof_record_programs_one_block_witness :
  exists (crc : Z) (st' : tState),
    dispatch MAGIC1_sample MAGIC2_sample XIP_BASE_sample sample_state
      (mkRecord 0 0 1 (rec_data rec0)) = Halted st'
    /\ hdr_magic1 (st_flashbuf st') = MAGIC1_sample
    /\ hdr_magic2 (st_flashbuf st') = MAGIC2_sample.
Proof.
  destruct (eof_record_programs_one_block MAGIC1_sample MAGIC2_sample
              XIP_BASE_sample sample_state (mkRecord 0 0 1 (rec_data rec0))
              sample_state_wf eq_refl) as (crc & st' & Hd & H1 & H2 & _).
  exists crc, st'. split; [exact Hd | split; [exact H1 | exact H2]].
Defined.

(** The claim of [C2] that the magic values are the last bytes programmed
    fails.  One DATA line of four bytes and the END-OF-FILE line: flash is
    programmed by one call only, so no later call writes the magic values;
    the bytes written, in order, start with the eight bytes of the two
    magic words at the image offset 131072, and the four image bytes come
    last, so the image bytes are not all written before the magic bytes. *)
Lemma magic_bytes_are_programmed_first :
  let outcome :=
    readIntelHex MAGIC1_sample MAGIC2_sample XIP_BASE_sample flashbuf0 adjacent0
      [(":0400000001020304F2", stack0, rec0); (":00000001FF", stack0, rec0)] in
  is_halted outcome = true
  /\ length (program_calls (outcome_trace outcome)) = 1%nat
  /\ programmed (outcome_trace outcome) =
     [(131072, 0xfb); (131073, 0x5e); (131074, 0xcd); (131075, 0x8e);
      (131076, 0xa9); (131077, 0x52); (131078, 0xae); (131079, 0xc5);
      (131080, 4); (131081, 0); (131082, 0); (131083, 0);
      (131084, 205); (131085, 55); (131086, 55); (131087, 121);
      (131088, 1); (131089, 2); (131090, 3); (131091, 4)]
  /\ image_before_magic (programmed (outcome_trace outcome)) = false.
Proof.
  cbv zeta. repeat split; vm_compute; reflexivity.
Qed.

(** The line of the Intel HEX documentation: count 3, address 0x0030, type
    00 (DATA), payload 02 33 7A. *)
Example documented_line_is_a_data_record :
  record_bytes ":0300300002337A1E" = [0x03; 0x00; 0x30; 0x00; 0x02; 0x33; 0x7A; 0x1E]
  /\ fst (processRecord ":0300300002337A1E" stack0 rec0) = true
  /\ rec_type (snd (processRecord ":0300300002337A1E" stack0 rec0)) = TYPE_DATA
  /\ rec_addr (snd (processRecord ":0300300002337A1E" stack0 rec0)) = 0x0030.
Proof. repeat split; vm_compute; reflexivity. Qed.

(** Two DATA lines of four bytes and the END-OF-FILE line: the image staged
    has length 8, and the bytes programmed after the 16 header bytes are
    the two payloads. *)
Example two_data_lines_then_eof :
  let outcome :=
    readIntelHex MAGIC1_sample MAGIC2_sample XIP_BASE_sample flashbuf0 adjacent0
      [(":0400000001020304F2", stack0, rec0);
       (":0400040005060708DE", stack0, rec0);
       (":00000001FF", stack0, rec0)] in
  is_halted outcome = true
  /\ map snd (take 4 (drop 8 (programmed (outcome_trace outcome)))) = le32 8
  /\ map snd (drop 16 (programmed (outcome_trace outcome))) =
     [1; 2; 3; 4; 5; 6; 7; 8].
Proof. cbv zeta. repeat split; vm_compute; reflexivity. Qed.


(** ** Instances of the further properties *)

Lemma crc32_chains_witness :
  exists c : Z,
    crc32 [1; 2; 3; 4] 1 0xFFFFFFFF = Some c
    /\ crc32 [1; 2; 3; 4] (1 + 2) 0xFFFFFFFF
       = crc32 (drop (Z.to_nat 1) [1; 2; 3; 4]) 2 c.
Proof. apply (crc32_chains [1; 2; 3; 4] 1 2 0xFFFFFFFF); simpl; lia. Defined.

Lemma crc32_is_32_bit_witness : 0 <= 0x0376E6E7 < 2 ^ 32.
Proof.
  apply (crc32_is_32_bit (bytes_of_string "123456789") 9 0xFFFFFFFF 0x0376E6E7);
    [lia | vm_compute; reflexivity].
Defined.

Lemma crc32_detects_one_changed_byte_witness :
  crc32 ([1] ++ 2 :: [4]) 3 0xFFFFFFFF <> crc32 ([1] ++ 3 :: [4]) 3 0xFFFFFFFF.
Proof.
  apply (crc32_detects_one_changed_byte [1] [4] 2 3 3 0xFFFFFFFF);
    unfold is_byte; simpl; lia.
Defined.

Lemma processRecord_skips_leading_text_witness :
  processRecord ("abc" +:+ ":00000001FF") stack0 rec0
  = processRecord ":00000001FF" stack0 rec0.
Proof.
  apply (processRecord_skips_leading_text "abc" ":00000001FF" stack0 rec0).
  reflexivity.
Defined.

Lemma processRecord_stops_at_array_end_witness :
  record_bytes (EmptyString +:+ String ":" (full_body +:+ "FFFF")) = replicate 261 0.
Proof.
  apply (processRecord_stops_at_array_end EmptyString full_body "FFFF" (replicate 261 0));
    [reflexivity | vm_compute; reflexivity | reflexivity].
Defined.

Lemma processRecord_rejects_one_changed_byte_witness :
  processRecord (EmptyString +:+ String ":" "0300300002337B1E") stack0 rec0
  = (false, rec0).
Proof.
  apply (processRecord_rejects_one_changed_byte EmptyString "0300300002337B1E"
           [3; 0; 0x30; 0; 2; 0x33] [0x1E] 0x7A 0x7B stack0 rec0);
    try reflexivity; unfold is_byte; simpl; lia.
Defined.

Lemma processRecord_short_payload_from_stack_witness :
  rd (rec_data (mkRecord 5 0 0 ([0xAA; 0x51; 0xEE; 0xEE; 0xEE] ++ replicate 251 0))) 3
  = if 4 + 3 <? Z.of_nat (length (record_bytes ":05000000AA51"))
    then rd (record_bytes ":05000000AA51") (4 + 3)
    else rd stackEE (4 + 3).
Proof.
  apply (processRecord_short_payload_from_stack ":05000000AA51" stackEE rec0
           (mkRecord 5 0 0 ([0xAA; 0x51; 0xEE; 0xEE; 0xEE] ++ replicate 251 0)) 3);
    [reflexivity | reflexivity | vm_compute; reflexivity | simpl; lia].
Defined.

Lemma loop_body_ignores_address_witness :
  loop_body MAGIC1_sample MAGIC2_sample XIP_BASE_sample sample_state
    (encode_record 4 0 0 [9; 10; 11; 12]) stack0 rec0
  = loop_body MAGIC1_sample MAGIC2_sample XIP_BASE_sample sample_state
      (encode_record 4 0x100 0 [9; 10; 11; 12]) stack0 rec0.
Proof.
  apply (loop_body_ignores_address MAGIC1_sample MAGIC2_sample XIP_BASE_sample
           sample_state 4 0 0x100 0 [9; 10; 11; 12] stack0 rec0);
    try reflexivity; try (unfold is_byte; simpl; lia).
  repeat constructor; unfold is_byte; lia.
Defined.

Lemma sample_items_ok : Forall item_ok sample_items.
Proof.
  repeat constructor; cbn [fst snd length]; try lia; unfold is_byte; lia.
Qed.

Lemma flashbuf0_capacity : Z.of_nat (length (hdr_data flashbuf0)) = CAPACITY.
Proof.
  unfold flashbuf0. cbn [hdr_data]. rewrite length_replicate. unfold CAPACITY. lia.
Qed.

Lemma adjacent0_length : 254 <= Z.of_nat (length adjacent0).
Proof. unfold adjacent0. rewrite length_replicate. lia. Qed.

Lemma sample_junk_ok : junk_ok sample_junk.
Proof.
  intros k. unfold sample_junk. cbn [fst snd rec_data].
  rewrite !length_replicate. repeat split.
  apply Forall_replicate. unfold is_byte. apply Z.mod_pos_bound. lia.
Qed.

Lemma zero_junk_ok : junk_ok (fun _ => (stack0, rec0)).
Proof.
  intros k. cbn [fst snd]. repeat split.
  apply Forall_replicate. unfold is_byte. lia.
Qed.

Lemma run_assembles_payloads_in_order_witness :
  exists st' : tState,
    run MAGIC1_sample MAGIC2_sample XIP_BASE_sample sample_state
      (inputs_of (data_lines sample_items) sample_junk 0) = Running st'
    /\ st_offset st' =
       (st_offset sample_state + Z.of_nat (length (image_of sample_items)))
       mod CAPACITY.
Proof.
  destruct (run_assembles_payloads_in_order MAGIC1_sample MAGIC2_sample
              XIP_BASE_sample sample_junk 0 sample_items sample_state)
    as (st' & Hrun & Ho & _);
    [exact sample_junk_ok | exact sample_items_ok | exact sample_state_wf
     | unfold CAPACITY; simpl; lia |].
  exists st'. split; [exact Hrun | exact Ho].
Defined.

Lemma transfer_is_staged_with_its_checksum_witness :
  is_halted (readIntelHex MAGIC1_sample MAGIC2_sample XIP_BASE_sample
               flashbuf0 adjacent0
               (inputs_of (data_lines sample_items ++ [EOF_line]) sample_junk 0))
  = true.
Proof.
  apply (transfer_is_staged_with_its_checksum MAGIC1_sample MAGIC2_sample
           XIP_BASE_sample sample_junk sample_items flashbuf0 adjacent0);
    [exact sample_junk_ok | exact sample_items_ok | exact flashbuf0_capacity
     | exact adjacent0_length | unfold CAPACITY; simpl; lia].
Defined.

Lemma full_items_ok : Forall item_ok full_items.
Proof.
  unfold full_items. apply Forall_app_2.
  - apply Forall_replicate. unfold item_ok. cbn [fst snd].
    rewrite length_replicate. repeat split; try lia.
    apply Forall_replicate. unfold is_byte. lia.
  - repeat constructor; cbn [fst snd length]; try lia; unfold is_byte; lia.
Qed.

Lemma full_size_transfer_is_staged_empty_witness :
  program_calls
    (outcome_trace (readIntelHex MAGIC1_sample MAGIC2_sample XIP_BASE_sample
                      flashbuf0 adjacent0
                      (inputs_of (data_lines full_items ++ [EOF_line]) sample_junk 0)))
  = [(FLASH_IMAGE_OFFSET,
      le32 MAGIC1_sample ++ le32 MAGIC2_sample ++ le32 0 ++ le32 0xFFFFFFFF)].
Proof.
  apply (full_size_transfer_is_staged_empty MAGIC1_sample MAGIC2_sample
           XIP_BASE_sample sample_junk full_items flashbuf0 adjacent0);
    [exact sample_junk_ok | exact full_items_ok | exact flashbuf0_capacity
     | exact adjacent0_length | vm_compute; reflexivity].
Defined.

Lemma flashImage_erases_what_it_programs_witness :
  exists (h : tFlashHeader) (front back : list tEvent) (len : Z) (block : list Z),
    flashImage MAGIC1_sample MAGIC2_sample XIP_BASE_sample
      (st_flashbuf sample_state) 8
      = Some (h, front ++ flash_range_erase FLASH_IMAGE_OFFSET len
                    :: flash_range_program FLASH_IMAGE_OFFSET block :: back)
    /\ 16 + 8 <= len < 16 + 8 + 4096.
Proof.
  destruct (flashImage_erases_what_it_programs MAGIC1_sample MAGIC2_sample
              XIP_BASE_sample (st_flashbuf sample_state) 8)
    as (h & front & back & len & block & Hfi & _ & _ & _ & _ & _ & Hlen & _).
  - pose proof sample_state_wf as (Hd & _). unfold CAPACITY in Hd. lia.
  - lia.
  - exists h, front, back, len, block. split; [exact Hfi | exact Hlen].
Defined.

Lemma run_stops_at_flashImage_witness :
  run MAGIC1_sample MAGIC2_sample XIP_BASE_sample sample_state
    ([(EOF_line, stack0, rec0)] ++ [(":0400000001020304F2", stack0, rec0)])
  = run MAGIC1_sample MAGIC2_sample XIP_BASE_sample sample_state
      [(EOF_line, stack0, rec0)].
Proof.
  apply (run_stops_at_flashImage MAGIC1_sample MAGIC2_sample XIP_BASE_sample
           sample_state [(EOF_line, stack0, rec0)]
           [(":0400000001020304F2", stack0, rec0)]).
  vm_compute. reflexivity.
Defined.

Lemma sample_records_ok :
  Forall record_ok [(TYPE_DATA, 0, [1; 2; 3; 4])]
  /\ Forall record_ok [(TYPE_EOF, 0, [])]
  /\ record_ok (TYPE_STARTLIN, 0, [0x10; 0; 0; 0]).
Proof.
  assert (H : forall (type : Z) (payload : list Z),
             0 <= type <= 5 -> bytes_ok payload -> (length payload <= 255)%nat ->
             record_ok (type, 0, payload)).
  { intros type payload Ht Hp Hl. unfold record_ok, is_byte. cbn [fst snd].
    repeat split; try lia; assumption. }
  split; [| split].
  - apply Forall_cons_2; [| constructor].
    apply H; [unfold TYPE_DATA; lia | | cbn [length]; lia].
    repeat (apply Forall_cons_2; [unfold is_byte; lia |]). constructor.
  - apply Forall_cons_2; [| constructor].
    apply H; [unfold TYPE_EOF; lia | constructor | cbn [length]; lia].
  - apply H; [unfold TYPE_STARTLIN; lia | | cbn [length]; lia].
    repeat (apply Forall_cons_2; [unfold is_byte; lia |]). constructor.
Qed.

Lemma run_skips_rejected_line_witness :
  run MAGIC1_sample MAGIC2_sample XIP_BASE_sample sample_state
    (inputs_of (map record_line [(TYPE_DATA, 0, [1; 2; 3; 4])]
                ++ "not a record"%string :: map record_line [(TYPE_EOF, 0, [])])
       sample_junk 0)
  = run MAGIC1_sample MAGIC2_sample XIP_BASE_sample sample_state
      (inputs_of (map record_line ([(TYPE_DATA, 0, [1; 2; 3; 4])] ++ [(TYPE_EOF, 0, [])]))
         (fun _ => (stack0, rec0)) 0).
Proof.
  apply (run_skips_rejected_line MAGIC1_sample MAGIC2_sample XIP_BASE_sample
           sample_state "not a record" [(TYPE_DATA, 0, [1; 2; 3; 4])]
           [(TYPE_EOF, 0, [])] sample_junk (fun _ => (stack0, rec0)));
    [exact sample_junk_ok | exact zero_junk_ok | exact (proj1 sample_records_ok)
     | exact (proj1 (proj2 sample_records_ok)) | unfold sizeof_line; simpl; lia
     | reflexivity | vm_compute; reflexivity].
Defined.

Lemma getLine_returns_the_line_witness :
  getLine (list_ascii_of_string ":00000001FF" ++ "013"%char :: ["010"%char])
    (Z.to_nat sizeof_line)
  = Line ":00000001FF" ["010"%char].
Proof.
  apply (getLine_returns_the_line ":00000001FF" "013" ["010"%char]);
    [reflexivity | unfold sizeof_line; simpl; lia | reflexivity].
Defined.

Lemma getLine_overruns_long_line_witness :
  getLine (list_ascii_of_string long_front ++ "010"%char :: [])
    (Z.to_nat sizeof_line) = Overrun.
Proof.
  apply (getLine_overruns_long_line long_front "010" []);
    vm_compute; reflexivity.
Defined.

Lemma getLine_returns_encoded_record_witness :
  String.length (encode_record 4 0x100 0 [9; 10; 11; 12]) = (11 + 2 * 4)%nat.
Proof.
  refine (proj1 (getLine_returns_encoded_record 4 0x100 0 [9; 10; 11; 12]
                   "010" [] _ _ _ _ _ _));
    try reflexivity; try (unfold is_byte; simpl; lia).
  repeat constructor; unfold is_byte; lia.
Defined.

Lemma readIntelHex_uart_processes_lines_witness :
  readIntelHex_uart MAGIC1_sample MAGIC2_sample XIP_BASE_sample flashbuf0 adjacent0
    (text_of [(":0400000001020304F2", "010"%char); (":00000001FF", "013"%char)]
     ++ list_ascii_of_string ":04")
    (fun _ => (stack0, rec0))
  = readIntelHex MAGIC1_sample MAGIC2_sample XIP_BASE_sample flashbuf0 adjacent0
      (lines_inputs [(":0400000001020304F2", "010"%char); (":00000001FF", "013"%char)]
         (fun _ => (stack0, rec0)) 0).
Proof.
  apply (readIntelHex_uart_processes_lines MAGIC1_sample MAGIC2_sample
           XIP_BASE_sample flashbuf0 adjacent0);
    [| reflexivity | unfold sizeof_line; simpl; lia].
  repeat constructor; cbn [fst snd]; try reflexivity; unfold sizeof_line; simpl; lia.
Defined.

Lemma readIntelHex_uart_accepts_crlf_witness :
  readIntelHex_uart MAGIC1_sample MAGIC2_sample XIP_BASE_sample flashbuf0 adjacent0
    (text_of (flat_map (fun line => [(line, "013"%char); (EmptyString, "010"%char)])
                [":0400000001020304F2"; ":00000001FF"]))
    sample_junk
  = readIntelHex MAGIC1_sample MAGIC2_sample XIP_BASE_sample flashbuf0 adjacent0
      (inputs_of [":0400000001020304F2"; ":00000001FF"]
         (fun i => sample_junk (2 * i)%nat) 0).
Proof.
  apply (readIntelHex_uart_accepts_crlf MAGIC1_sample MAGIC2_sample
           XIP_BASE_sample flashbuf0 adjacent0).
  repeat constructor; try reflexivity; unfold sizeof_line; simpl; lia.
Defined.

Lemma processRecord_checksum_ignores_order_witness :
  fst (processRecord (EmptyString +:+ String ":" "01FF") stack0 rec0)
  = fst (processRecord (EmptyString +:+ String ":" "FF01") stack0 rec0).
Proof.
  apply (processRecord_checksum_ignores_order EmptyString "01FF" "FF01"
           [1; 0xFF] [0xFF; 1] stack0 rec0);
    try reflexivity; [apply perm_swap | simpl; lia].
Defined.

Lemma run_keeps_cursor_inside_witness :
  match run MAGIC1_sample MAGIC2_sample XIP_BASE_sample sample_state
          (inputs_of [":0400000001020304F2"; ":01FF"; ":00000001FF"] sample_junk 0) with
  | Running st' | Halted st' =>
      0 <= st_offset st' < CAPACITY
      /\ Z.of_nat (length (hdr_data (st_flashbuf st'))) = CAPACITY
      /\ st_adjacent st' = st_adjacent sample_state
  | Fault => False
  end.
Proof.
  apply (run_keeps_cursor_inside MAGIC1_sample MAGIC2_sample XIP_BASE_sample
           sample_state
           (inputs_of [":0400000001020304F2"; ":01FF"; ":00000001FF"] sample_junk 0)
           sample_state_wf);
    [| vm_compute; reflexivity].
  repeat (apply Forall_cons_2; [exact (sample_junk_ok _) |]). constructor.
Defined.

Lemma extlin_record_restarts_transfer_witness :
  is_halted
    (readIntelHex MAGIC1_sample MAGIC2_sample XIP_BASE_sample flashbuf0 adjacent0
       (inputs_of
          ([":0400000001020304F2"; "not a record"]
           ++ encode_record (Z.of_nat (length [0x10; 0x00])) 0 TYPE_EXTLIN [0x10; 0x00]
           :: data_lines sample_items ++ [EOF_line]) sample_junk 0))
  = true.
Proof.
  apply (extlin_record_restarts_transfer MAGIC1_sample MAGIC2_sample
           XIP_BASE_sample sample_junk [":0400000001020304F2"; "not a record"]
           0 [0x10; 0x00] sample_items flashbuf0 adjacent0);
    [exact sample_junk_ok | exact flashbuf0_capacity | exact adjacent0_length
     | vm_compute; reflexivity | vm_compute; reflexivity | lia |
     | simpl; lia | exact sample_items_ok | unfold CAPACITY; simpl; lia].
  apply Forall_cons_2; [unfold is_byte; lia |].
  apply Forall_cons_2; [unfold is_byte; lia | constructor].
Defined.

Lemma run_skips_other_record_types_witness :
  forget_count
    (run MAGIC1_sample MAGIC2_sample XIP_BASE_sample sample_state
       (inputs_of
          (map record_line ([(TYPE_DATA, 0, [1; 2; 3; 4])]
                            ++ (TYPE_STARTLIN, 0, [0x10; 0; 0; 0]) :: [(TYPE_EOF, 0, [])]))
          sample_junk 0))
  = forget_count
      (run MAGIC1_sample MAGIC2_sample XIP_BASE_sample sample_state
         (inputs_of
            (map record_line ([(TYPE_DATA, 0, [1; 2; 3; 4])] ++ [(TYPE_EOF, 0, [])]))
            (fun _ => (stack0, rec0)) 0)).
Proof.
  apply (run_skips_other_record_types MAGIC1_sample MAGIC2_sample XIP_BASE_sample
           sample_state (TYPE_STARTLIN, 0, [0x10; 0; 0; 0])
           [(TYPE_DATA, 0, [1; 2; 3; 4])] [(TYPE_EOF, 0, [])]
           sample_junk (fun _ => (stack0, rec0)));
    [exact sample_junk_ok | exact zero_junk_ok | exact (proj1 sample_records_ok)
     | exact (proj1 (proj2 sample_records_ok)) | exact (proj2 (proj2 sample_records_ok))
     | | | | vm_compute; reflexivity];
    unfold TYPE_STARTLIN, TYPE_DATA, TYPE_EOF, TYPE_EXTLIN; cbn [fst]; lia.
Defined.
